(** * Mission lifecycle of the space-simulator backend (server.js)

    A shallow embedding of the three mission transitions (start, cancel,
    complete) and of the journey-log read of [server.js], together with
    the store they run against.

    The store is the Firestore database the handlers use through the
    admin SDK.  It is modelled as a sequential state: the [users] and
    [missions] collections are finite maps from document ids, and every
    user owns a [journeyEvents] sub-collection kept in insertion order.
    A transaction buffers its writes and applies them together at commit,
    when the server-timestamp sentinels are resolved to the commit time. *)

From Stdlib Require Import Ascii.
From stdpp Require Import base option list gmap strings pretty sorting.

Open Scope string_scope.
Open Scope list_scope.
Open Scope Z_scope.

(** ** Strings *)

(** [String.prototype.includes]: [sub] occurs somewhere in [s]. *)
Fixpoint includes (sub s : string) : bool :=
  if String.prefix sub s then true
  else match s with
       | EmptyString => false
       | String _ s' => includes sub s'
       end.

(** The double-quote character of the confirmation messages. *)
Definition dquote : string := String "034"%char EmptyString.

(** [!x] for a request-body field that is a string when present:
    [undefined] and the empty string are falsy. *)
Definition falsy (x : option string) : bool :=
  match x with
  | None => true
  | Some s => bool_decide (s = "")
  end.

(** ** Data model *)

(** [admin.firestore.FieldValue.serverTimestamp()], the sentinel a write
    carries in place of a date. *)
Inductive Sentinel : Type := serverTimestamp.

(** The ISO string [ts.toDate().toISOString()] of a stored timestamp. *)
Inductive IsoString : Type := toISOString (ts : Z).

(** The [activeMission] object.  Its [startDate] is a [Sentinel] in the
    payload of a write, a timestamp ([Z]) in a stored document, an
    [IsoString] in a response, and missing ([unit]) in
    [activeMissionToReturn]. *)
Record ActiveMission (D : Type) : Type := mkActiveMission {
  missionId : string;
  missionName : string;
  startDate : D;
  durationSeconds : Z
}.
Arguments mkActiveMission {D} _ _ _ _.
Arguments missionId {D} _.
Arguments missionName {D} _.
Arguments startDate {D} _.
Arguments durationSeconds {D} _.

(** [userData.shipStatus]; only [crewCurrent] is read, and it may be
    missing ([typeof ... === 'undefined']).  Crew counts, here and in a
    mission document, are integers when present, so that [<] on them is
    the order of [Z]. *)
Record ShipStatus : Type := mkShipStatus {
  crewCurrent : option Z
}.

(** A document of the [users] collection.  A missing (or falsy)
    [activeMission] or [shipStatus] field is [None]. *)
Record UserData : Type := mkUserData {
  activeMission : option (ActiveMission Z);
  shipStatus : option ShipStatus
}.

(** A document of the [missions] collection; [crew] may be missing. *)
Record MissionData : Type := mkMissionData {
  name : string;
  crew : option Z;
  m_durationSeconds : Z
}.

Inductive Status : Type := started | canceled | completed.

(** A document of a [journeyEvents] sub-collection; [D] as for
    [ActiveMission]. *)
Record JourneyEvent (D : Type) : Type := mkJourneyEvent {
  ev_missionId : string;
  ev_missionName : string;
  status : Status;
  eventDate : D
}.
Arguments mkJourneyEvent {D} _ _ _ _.
Arguments ev_missionId {D} _.
Arguments ev_missionName {D} _.
Arguments status {D} _.
Arguments eventDate {D} _.

(** The database.  [journeyEvents] gives, for a user id, the documents of
    [users/<id>/journeyEvents] with their document ids, oldest insertion
    first; a user without an entry has an empty sub-collection. *)
Record Db : Type := mkDb {
  users : gmap string UserData;
  missions : gmap string MissionData;
  journeyEvents : gmap string (list (string * JourneyEvent Z))
}.

Definition journeyEventsOf (db : Db) (userId : string)
  : list (string * JourneyEvent Z) :=
  default [] (journeyEvents db !! userId).

(** What the store contributes to one request: the time it assigns at
    commit, the auto-generated id of [journeyEventsRef.doc()], and
    whether it fails the request with an error of its own (and with
    which message). *)
Record Env : Type := mkEnv {
  now : Z;
  newId : string;
  fault : option string
}.

(** ** Transactions *)

(** A thrown [Error], identified by its [message]. *)
Definition Error : Type := string.

(** The value of the [activeMission] field in [transaction.update]. *)
Inductive FieldUpdate : Type :=
| fieldSet (am : ActiveMission Sentinel)
| fieldDelete.

(** The writes a transaction can buffer. *)
Inductive Write : Type :=
| txUpdate (userId : string) (upd : FieldUpdate)
| txSet (userId docId : string) (ev : JourneyEvent Sentinel).

(** The body of a transaction: it either throws or returns a value, and
    accumulates writes. *)
Definition Txn (A : Type) : Type := list Write → Error + (A * list Write).

Definition throw {A} (message : Error) : Txn A := λ _, inl message.
Definition update (userId : string) (upd : FieldUpdate) : Txn unit :=
  λ ws, inr (tt, ws ++ [txUpdate userId upd]).
Definition set (userId docId : string) (ev : JourneyEvent Sentinel) : Txn unit :=
  λ ws, inr (tt, ws ++ [txSet userId docId ev]).

#[global] Instance Txn_ret : MRet Txn := λ A a ws, inr (a, ws).
#[global] Instance Txn_bind : MBind Txn := λ A B f m ws,
  match m ws with
  | inl e => inl e
  | inr (a, ws') => f a ws'
  end.

(** [if (cond) throw new Error(message)]. *)
Definition throwIf (cond : bool) (message : Error) : Txn unit :=
  if cond then throw message else mret tt.

(** Resolution of the sentinels at commit time [t]. *)
Definition resolveMission (t : Z) (am : ActiveMission Sentinel) : ActiveMission Z :=
  mkActiveMission (missionId am) (missionName am) t (durationSeconds am).

Definition resolveEvent (t : Z) (ev : JourneyEvent Sentinel) : JourneyEvent Z :=
  mkJourneyEvent (ev_missionId ev) (ev_missionName ev) (status ev) t.

(** The message of the store's rejection of an update of a document that
    does not exist. *)
Definition noDocumentToUpdate : Error := "No document to update".

(** One buffered write applied at commit time [t].  [update] touches the
    [activeMission] field only and needs the document to exist; [set] on
    a fresh document reference adds the document to the sub-collection. *)
Definition applyWrite (t : Z) (w : Write) (db : Db) : option Db :=
  match w with
  | txUpdate userId upd =>
      userData ← users db !! userId;
      let field := match upd with
                   | fieldSet am => Some (resolveMission t am)
                   | fieldDelete => None
                   end in
      Some (mkDb (<[userId := mkUserData field (shipStatus userData)]> (users db))
                 (missions db) (journeyEvents db))
  | txSet userId docId ev =>
      Some (mkDb (users db) (missions db)
                 (<[userId := journeyEventsOf db userId ++ [(docId, resolveEvent t ev)]]>
                    (journeyEvents db)))
  end.

Fixpoint commit (t : Z) (ws : list Write) (db : Db) : option Db :=
  match ws with
  | [] => Some db
  | w :: ws' => db' ← applyWrite t w db; commit t ws' db'
  end.

(** [db.runTransaction(body)]: the body reads the snapshot [db]; when it
    throws, nothing is written and its error is rethrown; when it
    returns, the buffered writes are committed together at [now env].  A
    failure of the store itself surfaces as a thrown error as well. *)
Definition runTransaction {A} (env : Env) (db : Db) (body : Db → Txn A)
  : Db * (Error + A) :=
  match fault env with
  | Some message => (db, inl message)
  | None =>
      match body db [] with
      | inl e => (db, inl e)
      | inr (a, ws) =>
          match commit (now env) ws db with
          | Some db' => (db', inr a)
          | None => (db, inl noDocumentToUpdate)
          end
      end
  end.

(** ** Responses *)

(** [res.status(statusCode).json({ message, activeMission })]; the
    [activeMission] member is there in the success response of start
    only. *)
Record Response : Type := mkResponse {
  statusCode : Z;
  message : string;
  res_activeMission : option (ActiveMission IsoString)
}.

Definition json (statusCode : Z) (message : string) : Response :=
  mkResponse statusCode message None.

(** [message || fallback]. *)
Definition orElse (message fallback : string) : string :=
  if bool_decide (message = "") then fallback else message.

(** ** POST /api/missions/start *)

Definition UserNotFoundInFirestore : Error := "User profile not found in Firestore.".
Definition MissionNotFound : Error := "Mission details not found in Firestore.".
Definition AlreadyActive : Error := "User already has an active mission.".
Definition IncompleteShipData : Error := "Ship status data is incomplete for user.".
Definition IncompleteMissionData : Error :=
  "Mission data is incomplete (missing crew requirement).".
Definition InsufficientCrew (required available : Z) : Error :=
  "Insufficient crew. Required: " +:+ pretty required +:+
  ", Available: " +:+ pretty available.
Definition MissionIdRequired : Error := "Mission ID is required.".

(** The crew checks of the start transaction (the three [if]s after the
    active-mission check). *)
Definition eligibility (userData : UserData) (missionData : MissionData) : Txn unit :=
  match shipStatus userData ≫= crewCurrent with
  | None => throw IncompleteShipData
  | Some crewCurrent =>
      match crew missionData with
      | None => throw IncompleteMissionData
      | Some crew =>
          throwIf (crewCurrent <? crew) (InsufficientCrew crew crewCurrent)
      end
  end.

(** The callback given to [db.runTransaction] by the start handler.  Its
    result is the value it leaves in [activeMissionToReturn]. *)
Definition start_body (userId reqMissionId docId : string) (db : Db)
  : Txn (ActiveMission unit) :=
  match users db !! userId with
  | None => throw UserNotFoundInFirestore
  | Some userData =>
      match missions db !! reqMissionId with
      | None => throw MissionNotFound
      | Some missionData =>
          throwIf (bool_decide (is_Some (activeMission userData))) AlreadyActive;;
          eligibility userData missionData;;
          let newActiveMission :=
            mkActiveMission reqMissionId (name missionData) serverTimestamp
                            (m_durationSeconds missionData) in
          update userId (fieldSet newActiveMission);;
          let activeMissionToReturn :=
            mkActiveMission (missionId newActiveMission)
                            (missionName newActiveMission) tt
                            (durationSeconds newActiveMission) in
          set userId docId
              (mkJourneyEvent reqMissionId (name missionData) started serverTimestamp);;
          mret activeMissionToReturn
      end
  end.

Definition start_isClientError (message : string) : bool :=
  includes "User already" message ||
  includes "Insufficient crew" message ||
  includes "not found" message ||
  includes "required" message ||
  includes "incomplete" message.

Definition start_catch (error : Error) : Response :=
  json (if start_isClientError error then 400 else 500)
       (orElse error "Server error starting mission.").

(** The date conversion applied to the re-read [activeMission]. *)
Definition isoMission (am : ActiveMission Z) : ActiveMission IsoString :=
  mkActiveMission (missionId am) (missionName am) (toISOString (startDate am))
                  (durationSeconds am).

(** The [TypeError] of [updatedUserDoc.data().activeMission] when the
    re-read document does not exist. *)
Definition readOfUndefined : Error :=
  "Cannot read properties of undefined (reading 'activeMission')".

(** The start handler, for the authenticated user [userId] and the
    [missionId] member of the request body ([body_missionId]; within the
    definitions [reqMissionId] is its value, to keep it apart from the
    field [missionId] of the stored object). *)
Definition missions_start (env : Env) (db : Db) (userId : string)
    (body_missionId : option string) : Db * Response :=
  match body_missionId with
  | Some reqMissionId =>
      if falsy body_missionId then (db, json 400 MissionIdRequired)
      else
        match runTransaction env db (start_body userId reqMissionId (newId env)) with
        | (db', inr _) =>
            match users db' !! userId with
            | Some updatedUserData =>
                let finalActiveMission := isoMission <$> activeMission updatedUserData in
                (db', mkResponse 200 "Mission started successfully" finalActiveMission)
            | None => (db', start_catch readOfUndefined)
            end
        | (db', inl error) => (db', start_catch error)
        end
  | None => (db, json 400 MissionIdRequired)
  end.

(** ** POST /api/missions/cancel *)

Definition UserNotFound : Error := "User profile not found.".
Definition NoActiveMissionToCancel : Error := "No active mission to cancel.".

(** The callback of the cancel handler; its result is what it leaves in
    [CanceledMissionId] and [CanceledMissionName]. *)
Definition cancel_body (userId docId : string) (db : Db) : Txn (string * string) :=
  match users db !! userId with
  | None => throw UserNotFound
  | Some userData =>
      match activeMission userData with
      | None => throw NoActiveMissionToCancel
      | Some am =>
          let CanceledMissionName := missionName am in
          let CanceledMissionId := missionId am in
          update userId fieldDelete;;
          set userId docId
              (mkJourneyEvent CanceledMissionId CanceledMissionName canceled
                              serverTimestamp);;
          mret (CanceledMissionId, CanceledMissionName)
      end
  end.

Definition cancel_isClientError (message : string) : bool :=
  includes "No active mission" message || includes "not found" message.

Definition cancel_catch (error : Error) : Response :=
  json (if cancel_isClientError error then 400 else 500)
       (orElse error "Server error canceling mission.").

Definition missions_cancel (env : Env) (db : Db) (userId : string) : Db * Response :=
  match runTransaction env db (cancel_body userId (newId env)) with
  | (db', inr (_, CanceledMissionName)) =>
      (db', json 200 ("Mission " +:+ dquote +:+ CanceledMissionName +:+ dquote +:+
                      " canceled successfully."))
  | (db', inl error) => (db', cancel_catch error)
  end.

(** ** POST /api/missions/complete *)

Definition NoActiveMissionToComplete : Error :=
  "No active mission found to complete. It might have been canceled or already completed.".
Definition MissionMismatch : Error :=
  "The mission to complete does not match the currently active mission in the database.".
Definition MissingParameters : Error := "Mission ID and Mission Name are required.".

(** The callback of the complete handler. *)
Definition complete_body (userId reqMissionId reqMissionName docId : string) (db : Db)
  : Txn unit :=
  match users db !! userId with
  | None => throw UserNotFound
  | Some userData =>
      match activeMission userData with
      | None => throw NoActiveMissionToComplete
      | Some am =>
          throwIf (bool_decide (missionId am ≠ reqMissionId)) MissionMismatch;;
          update userId fieldDelete;;
          set userId docId
              (mkJourneyEvent reqMissionId reqMissionName completed serverTimestamp)
      end
  end.

Definition complete_isClientError (message : string) : bool :=
  includes "required" message ||
  includes "not found" message ||
  includes "does not match" message ||
  includes "No active mission found to complete" message.

Definition complete_catch (error : Error) : Response :=
  json (if complete_isClientError error then 400 else 500)
       (orElse error "Server error completing mission.").

(** The complete handler, for the authenticated user and the [missionId]
    and [missionName] members of the request body. *)
Definition missions_complete (env : Env) (db : Db) (userId : string)
    (body_missionId body_missionName : option string) : Db * Response :=
  match body_missionId, body_missionName with
  | Some reqMissionId, Some reqMissionName =>
      if falsy body_missionId || falsy body_missionName
      then (db, json 400 MissingParameters)
      else
        match runTransaction env db
                (complete_body userId reqMissionId reqMissionName (newId env)) with
        | (db', inr _) =>
            (db', json 200 ("Mission " +:+ dquote +:+ reqMissionName +:+ dquote +:+
                            " completed successfully."))
        | (db', inl error) => (db', complete_catch error)
        end
  | _, _ => (db, json 400 MissingParameters)
  end.

(** ** GET /api/user/journey-log *)

(** The order in which the store yields the documents of a query
    [orderBy('eventDate', 'desc')]: by [eventDate], latest first;
    documents with the same [eventDate] by document id, in the direction
    of the [orderBy] clause, that is, greatest id first. *)
Definition eventDateDesc (a b : string * JourneyEvent Z) : Prop :=
  eventDate b.2 < eventDate a.2 ∨
  (eventDate a.2 = eventDate b.2 ∧ String.le b.1 a.1).

#[global] Instance eventDateDesc_dec : RelDecision eventDateDesc.
Proof. intros a b. unfold eventDateDesc. apply _. Defined.

(** [journeyEventsRef.orderBy('eventDate', 'desc').get()]. *)
Definition orderByEventDateDesc (docs : list (string * JourneyEvent Z))
  : list (string * JourneyEvent Z) :=
  merge_sort eventDateDesc docs.

(** The element pushed for one document: [{ id: doc.id, ...data }] with
    the [eventDate] converted. *)
Definition isoEvent (doc : string * JourneyEvent Z) : string * JourneyEvent IsoString :=
  (doc.1, mkJourneyEvent (ev_missionId doc.2) (ev_missionName doc.2) (status doc.2)
                         (toISOString (eventDate doc.2))).

Inductive JourneyLogResponse : Type :=
| journeyLog (journeyEvents : list (string * JourneyEvent IsoString))
| journeyLogError (statusCode : Z) (message : string).

(** The journey-log handler for the authenticated user. *)
Definition user_journey_log (env : Env) (db : Db) (userId : string)
  : JourneyLogResponse :=
  match fault env with
  | Some error => journeyLogError 500 (orElse error "Server error fetching journey log.")
  | None =>
      let querySnapshot := orderByEventDateDesc (journeyEventsOf db userId) in
      if bool_decide (querySnapshot = []) then journeyLog []
      else journeyLog (isoEvent <$> querySnapshot)
  end.

(** ** Committed states *)

(** The database after a committed start of mission [reqMissionId] (with
    catalogue entry [missionData]) by the user [userId]. *)
Definition startedDb (env : Env) (db : Db) (userId reqMissionId : string)
    (userData : UserData) (missionData : MissionData) : Db :=
  mkDb (<[userId := mkUserData
                      (Some (mkActiveMission reqMissionId (name missionData) (now env)
                                             (m_durationSeconds missionData)))
                      (shipStatus userData)]> (users db))
       (missions db)
       (<[userId := journeyEventsOf db userId ++
                    [(newId env, mkJourneyEvent reqMissionId (name missionData)
                                                started (now env))]]>
          (journeyEvents db)).

(** The database after a committed cancel or complete that logs [ev]. *)
Definition endedDb (env : Env) (db : Db) (userId : string) (userData : UserData)
    (ev : JourneyEvent Z) : Db :=
  mkDb (<[userId := mkUserData None (shipStatus userData)]> (users db))
       (missions db)
       (<[userId := journeyEventsOf db userId ++ [(newId env, ev)]]>
          (journeyEvents db)).

(** ** The errors of the transitions

    The messages of the errors the handlers raise themselves, per
    transition: the parameter check before the transaction and the
    [throw]s of its body. *)

Definition start_reason (error : Error) : Prop :=
  error ∈ [MissionIdRequired; UserNotFoundInFirestore; MissionNotFound; AlreadyActive;
           IncompleteShipData; IncompleteMissionData] ∨
  ∃ required available, error = InsufficientCrew required available.



(** ** Order of the journey log, in the words of the data model

    "Ties broken by insertion order": of two events of the response with
    the same [eventDate], the one listed first was inserted first
    ([tiesByInsertionOrder]) or, read the other way round for a listing
    that is latest first, was inserted last
    ([tiesByReverseInsertionOrder]). *)

Definition insertedBefore (docs : list (string * JourneyEvent Z)) (a b : string) : Prop :=
  ∃ (i j : nat) x y,
    docs !! i = Some (a, x) ∧ docs !! j = Some (b, y) ∧ (i < j)%nat.

Definition tiesByInsertionOrder (docs : list (string * JourneyEvent Z))
    (out : list (string * JourneyEvent IsoString)) : Prop :=
  ∀ (i j : nat) a b,
    out !! i = Some a → out !! j = Some b → (i < j)%nat →
    eventDate a.2 = eventDate b.2 → insertedBefore docs a.1 b.1.

Definition tiesByReverseInsertionOrder (docs : list (string * JourneyEvent Z))
    (out : list (string * JourneyEvent IsoString)) : Prop :=
  ∀ (i j : nat) a b,
    out !! i = Some a → out !! j = Some b → (i < j)%nat →
    eventDate a.2 = eventDate b.2 → insertedBefore docs b.1 a.1.

(** ** Sample data

    A small catalogue and four profiles, used to run the handlers on
    concrete requests. *)

Definition marsSurvey : MissionData := mkMissionData "Mars Survey" (Some 3) 3600.
Definition europaProbe : MissionData := mkMissionData "Europa Probe" None 7200.

(** Idle, with a crew of five. *)
Definition idlePilot : UserData := mkUserData None (Some (mkShipStatus (Some 5))).
(** Idle, with a crew of two. *)
Definition shortCrewPilot : UserData := mkUserData None (Some (mkShipStatus (Some 2))).
(** Idle, without ship status. *)
Definition noShipPilot : UserData := mkUserData None None.
(** On the Mars survey since time 50, without ship status. *)
Definition busyPilot : UserData :=
  mkUserData (Some (mkActiveMission "mars" "Mars Survey" 50 3600)) None.

Definition sampleDb : Db :=
  mkDb (<["idle" := idlePilot]> (<["short" := shortCrewPilot]>
          (<["noship" := noShipPilot]> (<["busy" := busyPilot]> ∅))))
       (<["mars" := marsSurvey]> (<["europa" := europaProbe]> ∅))
       (<["busy" := [("ev1", mkJourneyEvent "mars" "Mars Survey" started 50)]]> ∅).

Definition sampleEnv : Env := mkEnv 100 "ev2" None.

(** A journey log of three events committed at the same time. *)
Definition tiedEvents : list (string * JourneyEvent Z) :=
  [("b", mkJourneyEvent "mars" "Mars Survey" started 50);
   ("a", mkJourneyEvent "mars" "Mars Survey" canceled 50);
   ("c", mkJourneyEvent "europa" "Europa Probe" started 50)].

Definition tiedDb : Db := mkDb ∅ ∅ (<["idle" := tiedEvents]> ∅).


(** ** Authentication middleware *)

(** [String.prototype.split] for a non-empty separator: the pieces of [s]
    between the occurrences of [sep], found from left to right without
    overlap.  [skip] counts the characters of an occurrence still to be
    passed over, [cur] holds the current piece, last character first. *)
Fixpoint split_go (sep : string) (skip : nat) (cur s : string) : list string :=
  match s with
  | EmptyString => [String.rev cur]
  | String c s' =>
      match skip with
      | S skip' => split_go sep skip' cur s'
      | O =>
          if String.prefix sep s
          then String.rev cur :: split_go sep (String.length sep - 1) "" s'
          else split_go sep 0 (String c cur) s'
      end
  end.

Definition split (sep s : string) : list string := split_go sep 0 "" s.

(** What [admin.auth().verifyIdToken(idToken)] resolves to, or the [code]
    of the error it rejects with. *)
Inductive Verification : Type :=
| decodedToken (uid : string)
| rejectedToken (code : string).

(** [verifyToken], for the [authorization] header of the request: the
    response it sends itself, or the [uid] it hands to the next handler
    in [req.user]. *)
Definition verifyToken (verifyIdToken : string → Verification)
    (authorization : option string) : Response + string :=
  match authorization with
  | Some authHeader =>
      if falsy authorization || negb (String.prefix "Bearer " authHeader)
      then inl (json 401 "Unauthorized: No token provided")
      else
        match split "Bearer " authHeader !! 1%nat with
        | Some idToken =>
            match verifyIdToken idToken with
            | decodedToken uid => inr uid
            | rejectedToken code =>
                if bool_decide (code = "auth/id-token-expired")
                then inl (json 401 "Unauthorized: Token expired")
                else inl (json 403 "Forbidden: Invalid token")
            end
        | None => inl (json 403 "Forbidden: Invalid token")
        end
  | None => inl (json 401 "Unauthorized: No token provided")
  end.

(** ** The protected POST routes *)

(** A request to one of the three mission routes, with the members of its
    body. *)
Inductive Call : Type :=
| callStart (body_missionId : option string)
| callCancel
| callComplete (body_missionId body_missionName : option string).

(** The handler of the route, run for the verified user. *)
Definition handle (env : Env) (db : Db) (userId : string) (call : Call)
  : Db * Response :=
  match call with
  | callStart body_missionId => missions_start env db userId body_missionId
  | callCancel => missions_cancel env db userId
  | callComplete body_missionId body_missionName =>
      missions_complete env db userId body_missionId body_missionName
  end.

(** [app.post(path, verifyToken, handler)]. *)
Definition protected (verifyIdToken : string → Verification)
    (authorization : option string) (env : Env) (db : Db) (call : Call)
  : Db * Response :=
  match verifyToken verifyIdToken authorization with
  | inl response => (db, response)
  | inr userId => handle env db userId call
  end.

(** A sequence of handled requests, each with what the store contributes
    to it and with its user. *)
Fixpoint handleAll (requests : list (Env * string * Call)) (db : Db) : Db :=
  match requests with
  | [] => db
  | (env, userId, call) :: rest => handleAll rest (handle env db userId call).1
  end.

(** ** GET /api/missions *)

(** The order of the query [orderBy('name', 'asc')]: by [name]; documents
    with the same [name] by document id, smallest first. *)
Definition nameAsc (a b : string * MissionData) : Prop :=
  (name a.2 ≠ name b.2 ∧ String.le (name a.2) (name b.2)) ∨
  (name a.2 = name b.2 ∧ String.le a.1 b.1).

#[global] Instance nameAsc_dec : RelDecision nameAsc.
Proof. intros a b. unfold nameAsc. apply _. Defined.

(** The answer of a read route: the JSON value sent with status 200, or
    an error status with its [message] and, where the route sends one,
    its [error] member. *)
Inductive ReadResponse (A : Type) : Type :=
| readOk (value : A)
| readError (statusCode : Z) (message : string) (error : option string).
Arguments readOk {A} _.
Arguments readError {A} _ _ _.

(** The missions route; each mission is sent as [{ id: doc.id, ...data }]. *)
Definition get_missions (env : Env) (db : Db)
  : ReadResponse (list (string * MissionData)) :=
  match fault env with
  | Some error => readError 500 "Failed to fetch missions" (Some error)
  | None =>
      let snapshot := merge_sort nameAsc (map_to_list (missions db)) in
      if bool_decide (snapshot = []) then readError 404 "No missions found" None
      else readOk snapshot
  end.

(** ** GET /api/user/status *)

(** The body [{ activeMission, shipStatus }] of the status route; a
    missing member is sent as [null]. *)
Record UserStatus : Type := mkUserStatus {
  st_activeMission : option (ActiveMission IsoString);
  st_shipStatus : option ShipStatus
}.

Definition user_status (env : Env) (db : Db) (userId : string)
  : ReadResponse UserStatus :=
  match fault env with
  | Some error => readError 500 "Failed to fetch user status" (Some error)
  | None =>
      match users db !! userId with
      | None => readError 404 "User profile not found." None
      | Some userData =>
          readOk (mkUserStatus (isoMission <$> activeMission userData)
                               (shipStatus userData))
      end
  end.

(** ** The journey log as an audit trail *)

(** Replaying a journey log from the idle state: [started] opens a
    mission when none is open, [canceled] and [completed] close the open
    mission and must carry its id.  The result is the id of the mission
    left open, if any, or [None] when the log is not such a trail. *)
Definition replayStep (state : option (option string)) (ev : JourneyEvent Z)
  : option (option string) :=
  match state with
  | Some None =>
      match status ev with
      | started => Some (Some (ev_missionId ev))
      | _ => None
      end
  | Some (Some open) =>
      match status ev with
      | started => None
      | _ => if bool_decide (ev_missionId ev = open) then Some None else None
      end
  | None => None
  end.

Definition replay (docs : list (string * JourneyEvent Z)) : option (option string) :=
  foldl (λ state doc, replayStep state doc.2) (Some None) docs.

(** The journey log of every profile replays to the profile's current
    state. *)
Definition auditTrail (db : Db) : Prop :=
  map_Forall
    (λ userId userData,
       replay (journeyEventsOf db userId) = Some (missionId <$> activeMission userData))
    (users db).

(** * Properties *)

(** Membership in an explicit list. *)
Ltac listed := repeat first [apply list_elem_of_here | apply list_elem_of_further].

(** ** Strings and messages *)

Lemma prefix_app (p s : string) : String.prefix p (p +:+ s) = true.
Proof.
  induction p as [|a p IH]; simpl.
  - by destruct s.
  - destruct (Ascii.ascii_dec a a); [exact IH | done].
Qed.

Lemma includes_unfold (sub s : string) :
  includes sub s =
  if String.prefix sub s then true
  else match s with
       | EmptyString => false
       | String _ s' => includes sub s'
       end.
Proof. by destruct s. Qed.

Lemma includes_prefix (p s : string) : includes p (p +:+ s) = true.
Proof. rewrite includes_unfold, prefix_app. done. Qed.

Lemma includes_InsufficientCrew (required available : Z) :
  includes "Insufficient crew" (InsufficientCrew required available) = true.
Proof.
  unfold InsufficientCrew.
  change ("Insufficient crew. Required: " +:+ pretty required +:+
          ", Available: " +:+ pretty available)
    with ("Insufficient crew" +:+
          (". Required: " +:+ pretty required +:+ ", Available: " +:+ pretty available)).
  apply includes_prefix.
Qed.

Lemma InsufficientCrew_nonempty (required available : Z) :
  InsufficientCrew required available ≠ "".
Proof. done. Qed.

Lemma start_catch_InsufficientCrew (required available : Z) :
  start_catch (InsufficientCrew required available) =
  json 400 (InsufficientCrew required available).
Proof.
  unfold start_catch, start_isClientError, orElse.
  rewrite includes_InsufficientCrew, orb_true_r.
  rewrite (bool_decide_false _ (InsufficientCrew_nonempty _ _)).
  reflexivity.
Qed.

(** ** Transactions *)

Lemma runTransaction_throws {A} env db (body : Db → Txn A) e :
  fault env = None → body db [] = inl e →
  runTransaction env db body = (db, inl e).
Proof. intros Hf Hb. unfold runTransaction. by rewrite Hf, Hb. Qed.

Lemma runTransaction_commits {A} env db (body : Db → Txn A) a ws db' :
  fault env = None → body db [] = inr (a, ws) → commit (now env) ws db = Some db' →
  runTransaction env db body = (db', inr a).
Proof. intros Hf Hb Hc. unfold runTransaction. by rewrite Hf, Hb, Hc. Qed.

(** A transaction that ends in an error has written nothing. *)
Lemma runTransaction_error_unchanged {A} env db (body : Db → Txn A) db' e :
  runTransaction env db body = (db', inl e) → db' = db.
Proof.
  unfold runTransaction. intros H.
  destruct (fault env); [by simplify_eq|].
  destruct (body db []) as [?|[a ws]]; [by simplify_eq|].
  destruct (commit (now env) ws db); by simplify_eq.
Qed.

(** The two writes of a transition, applied to an existing profile. *)
Lemma commit_update_set t userId upd docId ev db userData :
  users db !! userId = Some userData →
  commit t [txUpdate userId upd; txSet userId docId ev] db =
  Some (mkDb (<[userId := mkUserData
                            match upd with
                            | fieldSet am => Some (resolveMission t am)
                            | fieldDelete => None
                            end (shipStatus userData)]> (users db))
             (missions db)
             (<[userId := journeyEventsOf db userId ++ [(docId, resolveEvent t ev)]]>
                (journeyEvents db))).
Proof. intros Hu. simpl. rewrite Hu. reflexivity. Qed.

(** ** The bodies of the three transactions *)

Lemma eligibility_cases userData missionData ws :
  eligibility userData missionData ws =
  match shipStatus userData ≫= crewCurrent, crew missionData with
  | None, _ => inl IncompleteShipData
  | Some _, None => inl IncompleteMissionData
  | Some available, Some required =>
      if available <? required then inl (InsufficientCrew required available)
      else inr (tt, ws)
  end.
Proof.
  unfold eligibility.
  destruct (shipStatus userData ≫= crewCurrent) as [c|]; [|done].
  destruct (crew missionData) as [r|]; [|done].
  unfold throwIf. by destruct (c <? r).
Qed.

Lemma start_body_active userId reqMissionId docId db userData missionData ws :
  users db !! userId = Some userData →
  missions db !! reqMissionId = Some missionData →
  is_Some (activeMission userData) →
  start_body userId reqMissionId docId db ws = inl AlreadyActive.
Proof.
  intros Hu Hm Ha. unfold start_body. rewrite Hu, Hm.
  by rewrite bool_decide_true.
Qed.

Lemma start_body_idle userId reqMissionId docId db userData missionData ws :
  users db !! userId = Some userData →
  missions db !! reqMissionId = Some missionData →
  activeMission userData = None →
  start_body userId reqMissionId docId db ws =
  match eligibility userData missionData ws with
  | inl e => inl e
  | inr (_, ws') =>
      inr (mkActiveMission reqMissionId (name missionData) tt
                           (m_durationSeconds missionData),
           ws' ++ [txUpdate userId
                     (fieldSet (mkActiveMission reqMissionId (name missionData)
                                  serverTimestamp (m_durationSeconds missionData)));
                   txSet userId docId
                     (mkJourneyEvent reqMissionId (name missionData) started
                                     serverTimestamp)])
  end.
Proof.
  intros Hu Hm Ha. unfold start_body. rewrite Hu, Hm, Ha.
  rewrite bool_decide_false by (by intros [? ?]).
  unfold throwIf, mbind, Txn_bind, mret, Txn_ret; simpl.
  destruct (eligibility userData missionData ws) as [e|[[] ws']]; [done|].
  unfold update, set. by rewrite <- app_assoc.
Qed.

Lemma cancel_body_idle userId docId db userData ws :
  users db !! userId = Some userData → activeMission userData = None →
  cancel_body userId docId db ws = inl NoActiveMissionToCancel.
Proof. intros Hu Ha. unfold cancel_body. by rewrite Hu, Ha. Qed.

Lemma cancel_body_active userId docId db userData am ws :
  users db !! userId = Some userData → activeMission userData = Some am →
  cancel_body userId docId db ws =
  inr ((missionId am, missionName am),
       ws ++ [txUpdate userId fieldDelete;
              txSet userId docId
                (mkJourneyEvent (missionId am) (missionName am) canceled
                                serverTimestamp)]).
Proof.
  intros Hu Ha. unfold cancel_body. rewrite Hu, Ha.
  unfold mbind, Txn_bind, mret, Txn_ret, update, set; simpl.
  by rewrite <- app_assoc.
Qed.

Lemma complete_body_idle userId reqMissionId reqMissionName docId db userData ws :
  users db !! userId = Some userData → activeMission userData = None →
  complete_body userId reqMissionId reqMissionName docId db ws =
  inl NoActiveMissionToComplete.
Proof. intros Hu Ha. unfold complete_body. by rewrite Hu, Ha. Qed.

Lemma complete_body_mismatch userId reqMissionId reqMissionName docId db userData am ws :
  users db !! userId = Some userData → activeMission userData = Some am →
  missionId am ≠ reqMissionId →
  complete_body userId reqMissionId reqMissionName docId db ws = inl MissionMismatch.
Proof.
  intros Hu Ha Hne. unfold complete_body. rewrite Hu, Ha.
  by rewrite bool_decide_true.
Qed.

Lemma complete_body_match userId reqMissionId reqMissionName docId db userData am ws :
  users db !! userId = Some userData → activeMission userData = Some am →
  missionId am = reqMissionId →
  complete_body userId reqMissionId reqMissionName docId db ws =
  inr (tt, ws ++ [txUpdate userId fieldDelete;
                  txSet userId docId
                    (mkJourneyEvent reqMissionId reqMissionName completed
                                    serverTimestamp)]).
Proof.
  intros Hu Ha He. unfold complete_body. rewrite Hu, Ha.
  rewrite bool_decide_false by (by intros ?).
  unfold throwIf, mbind, Txn_bind, mret, Txn_ret, update, set; simpl.
  by rewrite <- app_assoc.
Qed.

(** ** The handlers *)

Lemma falsy_Some (s : string) : s ≠ "" → falsy (Some s) = false.
Proof. intros H. simpl. by rewrite bool_decide_false. Qed.

Lemma start_fails env db userId reqMissionId e :
  reqMissionId ≠ "" → fault env = None →
  start_body userId reqMissionId (newId env) db [] = inl e →
  missions_start env db userId (Some reqMissionId) = (db, start_catch e).
Proof.
  intros Hid Hf Hb. unfold missions_start.
  rewrite (falsy_Some _ Hid).
  by rewrite (runTransaction_throws _ _ _ _ Hf Hb).
Qed.

Lemma start_succeeds env db userId reqMissionId userData missionData available required :
  users db !! userId = Some userData →
  missions db !! reqMissionId = Some missionData →
  activeMission userData = None →
  shipStatus userData ≫= crewCurrent = Some available →
  crew missionData = Some required →
  required ≤ available →
  reqMissionId ≠ "" → fault env = None →
  missions_start env db userId (Some reqMissionId) =
  (startedDb env db userId reqMissionId userData missionData,
   mkResponse 200 "Mission started successfully"
     (Some (mkActiveMission reqMissionId (name missionData) (toISOString (now env))
                            (m_durationSeconds missionData)))).
Proof.
  intros Hu Hm Ha Hc Hr Hle Hid Hf. unfold missions_start.
  rewrite (falsy_Some _ Hid).
  erewrite runTransaction_commits; [| exact Hf | | ].
  2:{ rewrite (start_body_idle _ _ _ _ _ _ _ Hu Hm Ha), eligibility_cases, Hc, Hr.
      rewrite (proj2 (Z.ltb_ge _ _) Hle). reflexivity. }
  2:{ apply (commit_update_set _ _ _ _ _ _ _ Hu). }
  simpl. rewrite lookup_insert_eq. reflexivity.
Qed.

Lemma cancel_fails env db userId e :
  fault env = None → cancel_body userId (newId env) db [] = inl e →
  missions_cancel env db userId = (db, cancel_catch e).
Proof.
  intros Hf Hb. unfold missions_cancel.
  by rewrite (runTransaction_throws _ _ _ _ Hf Hb).
Qed.

Lemma cancel_succeeds env db userId userData am :
  users db !! userId = Some userData → activeMission userData = Some am →
  fault env = None →
  missions_cancel env db userId =
  (endedDb env db userId userData
     (mkJourneyEvent (missionId am) (missionName am) canceled (now env)),
   json 200 ("Mission " +:+ dquote +:+ missionName am +:+ dquote +:+
             " canceled successfully.")).
Proof.
  intros Hu Ha Hf. unfold missions_cancel.
  erewrite runTransaction_commits; [| exact Hf | | ].
  2:{ apply (cancel_body_active _ _ _ _ _ _ Hu Ha). }
  2:{ apply (commit_update_set _ _ _ _ _ _ _ Hu). }
  reflexivity.
Qed.

Lemma complete_fails env db userId reqMissionId reqMissionName e :
  reqMissionId ≠ "" → reqMissionName ≠ "" → fault env = None →
  complete_body userId reqMissionId reqMissionName (newId env) db [] = inl e →
  missions_complete env db userId (Some reqMissionId) (Some reqMissionName) =
  (db, complete_catch e).
Proof.
  intros Hid Hname Hf Hb. unfold missions_complete.
  rewrite (falsy_Some _ Hid), (falsy_Some _ Hname). simpl.
  by rewrite (runTransaction_throws _ _ _ _ Hf Hb).
Qed.

Lemma complete_succeeds env db userId reqMissionId reqMissionName userData am :
  users db !! userId = Some userData → activeMission userData = Some am →
  missionId am = reqMissionId →
  reqMissionId ≠ "" → reqMissionName ≠ "" → fault env = None →
  missions_complete env db userId (Some reqMissionId) (Some reqMissionName) =
  (endedDb env db userId userData
     (mkJourneyEvent reqMissionId reqMissionName completed (now env)),
   json 200 ("Mission " +:+ dquote +:+ reqMissionName +:+ dquote +:+
             " completed successfully.")).
Proof.
  intros Hu Ha He Hid Hname Hf. unfold missions_complete.
  rewrite (falsy_Some _ Hid), (falsy_Some _ Hname). simpl.
  erewrite runTransaction_commits; [| exact Hf | | ].
  2:{ apply (complete_body_match _ _ _ _ _ _ _ _ Hu Ha He). }
  2:{ apply (commit_update_set _ _ _ _ _ _ _ Hu). }
  reflexivity.
Qed.

(** ** Rejected transitions *)

(** C1 (as amended).  For a user who already has an active mission, a
    start call that names a mission of the catalogue is answered 400 with
    "User already has an active mission." and the database is the one
    before the call: the stored active mission is not overwritten and no
    journey event is added. *)
Theorem start_active_rejected env db userId reqMissionId userData missionData :
  users db !! userId = Some userData →
  is_Some (activeMission userData) →
  missions db !! reqMissionId = Some missionData →
  reqMissionId ≠ "" → fault env = None →
  missions_start env db userId (Some reqMissionId) = (db, json 400 AlreadyActive).
Proof.
  intros Hu Ha Hm Hid Hf.
  apply (start_fails _ _ _ _ AlreadyActive Hid Hf).
  by eapply start_body_active.
Qed.

Lemma start_active_rejected_witness :
  missions_start sampleEnv sampleDb "busy" (Some "europa") =
  (sampleDb, json 400 AlreadyActive).
Proof.
  apply (start_active_rejected sampleEnv sampleDb "busy" "europa" busyPilot europaProbe).
  - reflexivity.
  - by eexists.
  - reflexivity.
  - discriminate.
  - reflexivity.
Defined.

(** C1 as stated fails when the requested mission is not in the
    catalogue: the existence check comes first, and the call of a user
    with an active mission is answered "Mission details not found in
    Firestore.". *)
Lemma start_active_unknown_mission :
  missions_start sampleEnv sampleDb "busy" (Some "pluto") =
  (sampleDb, json 400 MissionNotFound) ∧
  ¬ (∀ env db userId reqMissionId userData,
       users db !! userId = Some userData →
       is_Some (activeMission userData) →
       reqMissionId ≠ "" → fault env = None →
       missions_start env db userId (Some reqMissionId) = (db, json 400 AlreadyActive)).
Proof.
  assert (H : missions_start sampleEnv sampleDb "busy" (Some "pluto") =
              (sampleDb, json 400 MissionNotFound)) by (vm_compute; reflexivity).
  split; [exact H|].
  intros Hall.
  specialize (Hall sampleEnv sampleDb "busy" "pluto" busyPilot).
  rewrite H in Hall.
  assert (Heq : (sampleDb, json 400 MissionNotFound) = (sampleDb, json 400 AlreadyActive)).
  { apply Hall; [reflexivity | by eexists | discriminate | reflexivity]. }
  discriminate Heq.
Qed.

(** C2.  For a user without an active mission, cancel is answered 400
    with "No active mission to cancel." and complete 400 with "No active
    mission found to complete. ..."; both leave the database, and so the
    profile and the journey log, as they were. *)
Theorem idle_cancel_complete_rejected env db userId userData reqMissionId reqMissionName :
  users db !! userId = Some userData →
  activeMission userData = None →
  reqMissionId ≠ "" → reqMissionName ≠ "" → fault env = None →
  missions_cancel env db userId = (db, json 400 NoActiveMissionToCancel) ∧
  missions_complete env db userId (Some reqMissionId) (Some reqMissionName) =
  (db, json 400 NoActiveMissionToComplete).
Proof.
  intros Hu Ha Hid Hname Hf. split.
  - apply (cancel_fails _ _ _ NoActiveMissionToCancel Hf).
    by eapply cancel_body_idle.
  - apply (complete_fails _ _ _ _ _ NoActiveMissionToComplete Hid Hname Hf).
    by eapply complete_body_idle.
Qed.

Lemma idle_cancel_complete_rejected_witness :
  missions_cancel sampleEnv sampleDb "idle" = (sampleDb, json 400 NoActiveMissionToCancel) ∧
  missions_complete sampleEnv sampleDb "idle" (Some "mars") (Some "Mars Survey") =
  (sampleDb, json 400 NoActiveMissionToComplete).
Proof.
  apply (idle_cancel_complete_rejected sampleEnv sampleDb "idle" idlePilot);
    [reflexivity | reflexivity | discriminate | discriminate | reflexivity].
Defined.

(** C3.  When the stored active mission has an id other than the one
    supplied, complete is answered 400 with "The mission to complete does
    not match ..." and nothing is written: the active mission stays and
    the journey log does not grow. *)
Theorem complete_mismatch_rejected env db userId userData am reqMissionId reqMissionName :
  users db !! userId = Some userData →
  activeMission userData = Some am →
  reqMissionId ≠ missionId am →
  reqMissionId ≠ "" → reqMissionName ≠ "" → fault env = None →
  missions_complete env db userId (Some reqMissionId) (Some reqMissionName) =
  (db, json 400 MissionMismatch).
Proof.
  intros Hu Ha Hne Hid Hname Hf.
  apply (complete_fails _ _ _ _ _ MissionMismatch Hid Hname Hf).
  eapply complete_body_mismatch; [exact Hu | exact Ha | congruence].
Qed.

Lemma complete_mismatch_rejected_witness :
  missions_complete sampleEnv sampleDb "busy" (Some "europa") (Some "Europa Probe") =
  (sampleDb, json 400 MissionMismatch).
Proof.
  apply (complete_mismatch_rejected sampleEnv sampleDb "busy" busyPilot
           (mkActiveMission "mars" "Mars Survey" 50 3600));
    [reflexivity | reflexivity | discriminate | discriminate | discriminate | reflexivity].
Defined.

(** C4.  For a user without an active mission and a mission of the
    catalogue, a crew smaller than the mission requires makes start
    answer 400 with "Insufficient crew. ..."; no active mission is set
    and no journey event is added. *)
Theorem start_insufficient_crew env db userId reqMissionId userData missionData
    ship available required :
  users db !! userId = Some userData →
  activeMission userData = None →
  missions db !! reqMissionId = Some missionData →
  shipStatus userData = Some ship →
  crewCurrent ship = Some available →
  crew missionData = Some required →
  available < required →
  reqMissionId ≠ "" → fault env = None →
  missions_start env db userId (Some reqMissionId) =
  (db, json 400 (InsufficientCrew required available)).
Proof.
  intros Hu Ha Hm Hs Hc Hr Hlt Hid Hf.
  rewrite <- start_catch_InsufficientCrew.
  apply (start_fails _ _ _ _ _ Hid Hf).
  rewrite (start_body_idle _ _ _ _ _ _ _ Hu Hm Ha), eligibility_cases, Hs, Hr.
  simpl. rewrite Hc. by rewrite (proj2 (Z.ltb_lt _ _) Hlt).
Qed.

Lemma start_insufficient_crew_witness :
  missions_start sampleEnv sampleDb "short" (Some "mars") =
  (sampleDb, json 400 "Insufficient crew. Required: 3, Available: 2").
Proof.
  apply (start_insufficient_crew sampleEnv sampleDb "short" "mars" shortCrewPilot
           marsSurvey (mkShipStatus (Some 2)) 2 3);
    [reflexivity | reflexivity | reflexivity | reflexivity | reflexivity
    | reflexivity | reflexivity | discriminate | reflexivity].
Defined.

(** ** Eligibility *)

(** C5 (as amended).  For a user without an active mission and a mission
    of the catalogue, start is answered
    - 400 "Ship status data is incomplete for user." when [shipStatus] or
      its [crewCurrent] is missing, whatever the mission document holds;
    - 400 "Mission data is incomplete (missing crew requirement)." when
      [crewCurrent] is there and the mission has no [crew];
    - 400 "Insufficient crew. ..." when both are there and the crew is
      smaller than required;
    - 200 in the remaining case, [crewCurrent >= crew]. *)
Theorem start_eligibility_outcomes env db userId reqMissionId userData missionData :
  users db !! userId = Some userData →
  activeMission userData = None →
  missions db !! reqMissionId = Some missionData →
  reqMissionId ≠ "" → fault env = None →
  match shipStatus userData ≫= crewCurrent, crew missionData with
  | None, _ =>
      missions_start env db userId (Some reqMissionId) = (db, json 400 IncompleteShipData)
  | Some _, None =>
      missions_start env db userId (Some reqMissionId) = (db, json 400 IncompleteMissionData)
  | Some available, Some required =>
      if available <? required
      then missions_start env db userId (Some reqMissionId) =
           (db, json 400 (InsufficientCrew required available))
      else statusCode (missions_start env db userId (Some reqMissionId)).2 = 200
  end.
Proof.
  intros Hu Ha Hm Hid Hf.
  pose proof (start_body_idle userId reqMissionId (newId env) db userData missionData
                [] Hu Hm Ha) as Hb.
  rewrite eligibility_cases in Hb.
  destruct (shipStatus userData ≫= crewCurrent) as [available|] eqn:Hc.
  - destruct (crew missionData) as [required|] eqn:Hr.
    + destruct (available <? required) eqn:Hlt.
      * rewrite <- start_catch_InsufficientCrew.
        by apply start_fails.
      * apply Z.ltb_ge in Hlt.
        by rewrite (start_succeeds _ _ _ _ _ _ _ _ Hu Hm Ha Hc Hr Hlt Hid Hf).
    + by apply (start_fails _ _ _ _ IncompleteMissionData).
  - by apply (start_fails _ _ _ _ IncompleteShipData).
Qed.

Lemma start_eligibility_outcomes_witness :
  missions_start sampleEnv sampleDb "idle" (Some "europa") =
  (sampleDb, json 400 IncompleteMissionData).
Proof.
  apply (start_eligibility_outcomes sampleEnv sampleDb "idle" "europa" idlePilot
           europaProbe);
    [reflexivity | reflexivity | reflexivity | discriminate | reflexivity].
Defined.

(** C5 as stated fails when the profile has no [crewCurrent] and the
    mission has no [crew]: the ship-status check comes first, so the
    answer is the ship-data error, not the mission-data error. *)
Lemma start_ship_and_mission_data_missing :
  missions_start sampleEnv sampleDb "noship" (Some "europa") =
  (sampleDb, json 400 IncompleteShipData) ∧
  ¬ (∀ env db userId reqMissionId userData missionData,
       users db !! userId = Some userData →
       activeMission userData = None →
       missions db !! reqMissionId = Some missionData →
       reqMissionId ≠ "" → fault env = None →
       crew missionData = None →
       missions_start env db userId (Some reqMissionId) =
       (db, json 400 IncompleteMissionData)).
Proof.
  assert (H : missions_start sampleEnv sampleDb "noship" (Some "europa") =
              (sampleDb, json 400 IncompleteShipData)) by (vm_compute; reflexivity).
  split; [exact H|].
  intros Hall.
  specialize (Hall sampleEnv sampleDb "noship" "europa" noShipPilot europaProbe).
  rewrite H in Hall.
  assert (Heq : (sampleDb, json 400 IncompleteShipData) =
                (sampleDb, json 400 IncompleteMissionData)).
  { apply Hall; [reflexivity | reflexivity | reflexivity | discriminate
                | reflexivity | reflexivity]. }
  discriminate Heq.
Qed.

(** C10.  In start the active-mission check comes before the crew
    checks: a user with an active mission who requests a mission of the
    catalogue is answered 400 "User already has an active mission.",
    whatever the ship status and the crew requirement are; in particular
    the transaction does not end in the error the crew checks raise on
    the same data. *)
Theorem active_check_precedes_eligibility env db userId reqMissionId am ship missionData :
  users db !! userId = Some (mkUserData (Some am) ship) →
  missions db !! reqMissionId = Some missionData →
  reqMissionId ≠ "" → fault env = None →
  missions_start env db userId (Some reqMissionId) = (db, json 400 AlreadyActive) ∧
  ∀ e, eligibility (mkUserData (Some am) ship) missionData [] = inl e →
       start_body userId reqMissionId (newId env) db [] ≠ inl e.
Proof.
  intros Hu Hm Hid Hf.
  assert (Hb : start_body userId reqMissionId (newId env) db [] = inl AlreadyActive).
  { eapply start_body_active; [exact Hu | exact Hm | by eexists]. }
  split.
  - by apply (start_fails _ _ _ _ AlreadyActive).
  - intros e He. rewrite Hb. rewrite eligibility_cases in He.
    destruct (shipStatus _ ≫= crewCurrent) as [available|];
      [destruct (crew missionData) as [required|];
       [destruct (available <? required)|]|];
      simplify_eq; discriminate.
Qed.

Lemma active_check_precedes_eligibility_witness :
  missions_start sampleEnv sampleDb "busy" (Some "mars") =
  (sampleDb, json 400 AlreadyActive) ∧
  eligibility busyPilot marsSurvey [] = inl IncompleteShipData.
Proof.
  split; [|reflexivity].
  apply (active_check_precedes_eligibility sampleEnv sampleDb "busy" "mars"
           (mkActiveMission "mars" "Mars Survey" 50 3600) None marsSurvey);
    [reflexivity | reflexivity | discriminate | reflexivity].
Defined.

(** ** Committed transitions *)

Lemma journeyEventsOf_endedDb env db userId userData ev :
  journeyEventsOf (endedDb env db userId userData ev) userId =
  journeyEventsOf db userId ++ [(newId env, ev)].
Proof. unfold journeyEventsOf at 1. simpl. by rewrite lookup_insert_eq. Qed.

Lemma journeyEventsOf_startedDb env db userId reqMissionId userData missionData :
  journeyEventsOf (startedDb env db userId reqMissionId userData missionData) userId =
  journeyEventsOf db userId ++
  [(newId env, mkJourneyEvent reqMissionId (name missionData) started (now env))].
Proof. unfold journeyEventsOf at 1. simpl. by rewrite lookup_insert_eq. Qed.

(** C9.  Complete compares the supplied mission id only.  Whatever the
    stored mission name is, a complete call with the id of the active
    mission succeeds; the journey event it adds, with status completed,
    and the confirmation both carry the supplied name as it was sent. *)
Theorem complete_keeps_supplied_name env db userId userData am reqMissionId reqMissionName :
  users db !! userId = Some userData →
  activeMission userData = Some am →
  missionId am = reqMissionId →
  reqMissionId ≠ "" → reqMissionName ≠ "" → fault env = None →
  ∃ db',
    missions_complete env db userId (Some reqMissionId) (Some reqMissionName) =
    (db', json 200 ("Mission " +:+ dquote +:+ reqMissionName +:+ dquote +:+
                    " completed successfully.")) ∧
    journeyEventsOf db' userId =
    journeyEventsOf db userId ++
    [(newId env, mkJourneyEvent reqMissionId reqMissionName completed (now env))] ∧
    activeMission <$> users db' !! userId = Some None.
Proof.
  intros Hu Ha He Hid Hname Hf.
  eexists. split; [|split].
  - by eapply complete_succeeds.
  - apply journeyEventsOf_endedDb.
  - simpl. by rewrite lookup_insert_eq.
Qed.

Lemma complete_keeps_supplied_name_witness :
  missionName (mkActiveMission "mars" "Mars Survey" 50 3600) ≠ "Venus Flyby" ∧
  ∃ db',
    missions_complete sampleEnv sampleDb "busy" (Some "mars") (Some "Venus Flyby") =
    (db', json 200 ("Mission " +:+ dquote +:+ "Venus Flyby" +:+ dquote +:+
                    " completed successfully.")) ∧
    journeyEventsOf db' "busy" =
    journeyEventsOf sampleDb "busy" ++
    [("ev2", mkJourneyEvent "mars" "Venus Flyby" completed 100)] ∧
    activeMission <$> users db' !! "busy" = Some None.
Proof.
  split; [discriminate|].
  apply (complete_keeps_supplied_name sampleEnv sampleDb "busy" busyPilot
           (mkActiveMission "mars" "Mars Survey" 50 3600) "mars" "Venus Flyby");
    [reflexivity | reflexivity | reflexivity | discriminate | discriminate | reflexivity].
Defined.

(** ** Outcomes of a call *)

Lemma start_catch_status e : statusCode (start_catch e) ≠ 200.
Proof. unfold start_catch. by destruct (start_isClientError e). Qed.

Lemma cancel_catch_status e : statusCode (cancel_catch e) ≠ 200.
Proof. unfold cancel_catch. by destruct (cancel_isClientError e). Qed.

Lemma complete_catch_status e : statusCode (complete_catch e) ≠ 200.
Proof. unfold complete_catch. by destruct (complete_isClientError e). Qed.

Lemma start_faulted env db userId reqMissionId e :
  reqMissionId ≠ "" → fault env = Some e →
  missions_start env db userId (Some reqMissionId) = (db, start_catch e).
Proof.
  intros Hid Hf. unfold missions_start, runTransaction.
  by rewrite (falsy_Some _ Hid), Hf.
Qed.

(** A start call either is answered from the [catch] block, for an error
    of the transition or of the store, with the database untouched, or
    commits. *)
Lemma missions_start_outcome env db userId body_missionId :
  (∃ e, missions_start env db userId body_missionId = (db, start_catch e) ∧
        (start_reason e ∨ fault env = Some e)) ∨
  (∃ reqMissionId userData missionData,
      body_missionId = Some reqMissionId ∧
      fault env = None ∧
      users db !! userId = Some userData ∧
      missions db !! reqMissionId = Some missionData ∧
      missions_start env db userId body_missionId =
      (startedDb env db userId reqMissionId userData missionData,
       mkResponse 200 "Mission started successfully"
         (Some (mkActiveMission reqMissionId (name missionData)
                  (toISOString (now env)) (m_durationSeconds missionData))))).
Proof.
  destruct body_missionId as [reqMissionId|].
  2:{ left. exists MissionIdRequired. split; [reflexivity|].
      left. left. listed. }
  destruct (decide (reqMissionId = "")) as [->|Hid].
  { left. exists MissionIdRequired. split; [reflexivity|].
    left. left. listed. }
  destruct (fault env) as [e|] eqn:Hf.
  { left. exists e. split; [by apply start_faulted | by right]. }
  destruct (users db !! userId) as [userData|] eqn:Hu.
  2:{ left. exists UserNotFoundInFirestore. split.
      - apply (start_fails _ _ _ _ _ Hid Hf). unfold start_body. by rewrite Hu.
      - left. left. listed. }
  destruct (missions db !! reqMissionId) as [missionData|] eqn:Hm.
  2:{ left. exists MissionNotFound. split.
      - apply (start_fails _ _ _ _ _ Hid Hf). unfold start_body. by rewrite Hu, Hm.
      - left. left. listed. }
  destruct (activeMission userData) as [am|] eqn:Ha.
  { left. exists AlreadyActive. split.
    - apply (start_fails _ _ _ _ _ Hid Hf).
      eapply start_body_active; [exact Hu | exact Hm | by rewrite Ha].
    - left. left. listed. }
  pose proof (start_body_idle userId reqMissionId (newId env) db userData missionData
                [] Hu Hm Ha) as Hb.
  rewrite eligibility_cases in Hb.
  destruct (shipStatus userData ≫= crewCurrent) as [available|] eqn:Hc.
  2:{ left. exists IncompleteShipData. split.
      - by apply start_fails.
      - left. left. listed. }
  destruct (crew missionData) as [required|] eqn:Hr.
  2:{ left. exists IncompleteMissionData. split.
      - by apply start_fails.
      - left. left. listed. }
  destruct (available <? required) eqn:Hlt.
  { left. exists (InsufficientCrew required available). split.
    - by apply start_fails.
    - left. right. eauto. }
  right. exists reqMissionId, userData, missionData.
  apply Z.ltb_ge in Hlt.
  repeat split; try done.
  by eapply start_succeeds.
Qed.

(** ** The response of a committed start *)

(** C7.  When start answers 200, the [activeMission] of the response is
    the one read back from the user document after the commit, with its
    [startDate] being the time the store assigned at commit (as an ISO
    string); the object the transaction body prepared before the commit,
    which has no [startDate], is not what is sent. *)
Theorem start_response_is_reread env db userId body_missionId db' response :
  missions_start env db userId body_missionId = (db', response) →
  statusCode response = 200 →
  ∃ userData am,
    users db' !! userId = Some userData ∧
    activeMission userData = Some am ∧
    body_missionId = Some (missionId am) ∧
    startDate am = now env ∧
    res_activeMission response = Some (isoMission am) ∧
    startDate <$> res_activeMission response = Some (toISOString (now env)).
Proof.
  intros Hr Hs.
  destruct (missions_start_outcome env db userId body_missionId)
    as [(e & He & _) | (reqMissionId & userData & missionData & -> & Hf & Hu & Hm & He)].
  - rewrite He in Hr. simplify_eq. by destruct (start_catch_status e).
  - rewrite He in Hr. simplify_eq.
    eexists _, _. split; [simpl; apply lookup_insert_eq|].
    repeat split.
Qed.

Lemma start_response_is_reread_witness :
  ∃ userData am,
    users (startedDb sampleEnv sampleDb "idle" "mars" idlePilot marsSurvey) !! "idle" =
      Some userData ∧
    activeMission userData = Some am ∧
    Some "mars" = Some (missionId am) ∧
    startDate am = 100 ∧
    res_activeMission
      (mkResponse 200 "Mission started successfully"
         (Some (mkActiveMission "mars" "Mars Survey" (toISOString 100) 3600))) =
      Some (isoMission am) ∧
    startDate <$> res_activeMission
      (mkResponse 200 "Mission started successfully"
         (Some (mkActiveMission "mars" "Mars Survey" (toISOString 100) 3600))) =
      Some (toISOString 100).
Proof.
  apply (start_response_is_reread sampleEnv sampleDb "idle" (Some "mars")
           (startedDb sampleEnv sampleDb "idle" "mars" idlePilot marsSurvey)
           (mkResponse 200 "Mission started successfully"
              (Some (mkActiveMission "mars" "Mars Survey" (toISOString 100) 3600))));
    [vm_compute; reflexivity | reflexivity].
Defined.

Lemma cancel_faulted env db userId e :
  fault env = Some e → missions_cancel env db userId = (db, cancel_catch e).
Proof. intros Hf. unfold missions_cancel, runTransaction. by rewrite Hf. Qed.

Lemma complete_faulted env db userId reqMissionId reqMissionName e :
  reqMissionId ≠ "" → reqMissionName ≠ "" → fault env = Some e →
  missions_complete env db userId (Some reqMissionId) (Some reqMissionName) =
  (db, complete_catch e).
Proof.
  intros Hid Hname Hf. unfold missions_complete, runTransaction.
  by rewrite (falsy_Some _ Hid), (falsy_Some _ Hname), Hf.
Qed.






Lemma orElse_nonempty e fallback : e ≠ "" → orElse e fallback = e.
Proof. intros H. unfold orElse. by rewrite bool_decide_false. Qed.

(** ** Reporting of failures *)



(** ** Order of the journey log *)

#[global] Instance eventDateDesc_transitive : Transitive eventDateDesc.
Proof.
  intros a b c [Hab|[Hab Lab]] [Hbc|[Hbc Lbc]]; unfold eventDateDesc.
  - left. lia.
  - left. lia.
  - left. lia.
  - right. split; [lia|]. by transitivity b.1.
Qed.

#[global] Instance eventDateDesc_total : Total eventDateDesc.
Proof.
  intros a b. unfold eventDateDesc.
  destruct (Z.lt_trichotomy (eventDate a.2) (eventDate b.2)) as [Hlt|[Heq|Hgt]].
  - right. by left.
  - destruct (total String.le a.1 b.1) as [Hle|Hle].
    + right. right. by split.
    + left. right. by split.
  - left. by left.
Qed.

Lemma StronglySorted_weaken {A} (R R' : relation A) (l : list A) :
  (∀ x y, R x y → R' x y) → StronglySorted R l → StronglySorted R' l.
Proof.
  intros HR. induction 1 as [|x l Hs IH Hall]; constructor; [exact IH|].
  eapply Forall_impl; [exact Hall | auto].
Qed.

Lemma eventDateDesc_dates a b : eventDateDesc a b → eventDate b.2 ≤ eventDate a.2.
Proof. intros [H|[H _]]; lia. Qed.

(** C8 (as amended).  The journey-log read returns all events of the
    user, each once, latest [eventDate] first; events with the same
    [eventDate] come by document id, greatest first. *)
Theorem journey_log_order env db userId :
  fault env = None →
  ∃ docs,
    user_journey_log env db userId = journeyLog (isoEvent <$> docs) ∧
    docs ≡ₚ journeyEventsOf db userId ∧
    StronglySorted (λ a b, eventDate b.2 ≤ eventDate a.2) docs ∧
    StronglySorted eventDateDesc docs.
Proof.
  intros Hf. exists (orderByEventDateDesc (journeyEventsOf db userId)).
  assert (Hs : StronglySorted eventDateDesc
                 (orderByEventDateDesc (journeyEventsOf db userId)))
    by apply (StronglySorted_merge_sort eventDateDesc).
  split; [|split; [|split]].
  - unfold user_journey_log. rewrite Hf. simpl.
    case_bool_decide as Hempty; [by rewrite Hempty | done].
  - apply (merge_sort_Permutation eventDateDesc).
  - eapply StronglySorted_weaken; [|exact Hs]. apply eventDateDesc_dates.
  - exact Hs.
Qed.

Lemma journey_log_order_witness :
  ∃ docs,
    user_journey_log sampleEnv tiedDb "idle" = journeyLog (isoEvent <$> docs) ∧
    docs ≡ₚ journeyEventsOf tiedDb "idle" ∧
    StronglySorted (λ a b, eventDate b.2 ≤ eventDate a.2) docs ∧
    StronglySorted eventDateDesc docs.
Proof. apply (journey_log_order sampleEnv tiedDb "idle"). reflexivity. Defined.

(** C8 as stated fails for events with the same [eventDate]: inserted in
    the order b, a, c they are returned in the order c, b, a, which is
    neither the order of insertion nor its reverse. *)
Lemma journey_log_ties_by_document_id :
  user_journey_log sampleEnv tiedDb "idle" =
    journeyLog
      [("c", mkJourneyEvent "europa" "Europa Probe" started (toISOString 50));
       ("b", mkJourneyEvent "mars" "Mars Survey" started (toISOString 50));
       ("a", mkJourneyEvent "mars" "Mars Survey" canceled (toISOString 50))] ∧
  ¬ (∀ env db userId out,
       fault env = None → user_journey_log env db userId = journeyLog out →
       tiesByInsertionOrder (journeyEventsOf db userId) out) ∧
  ¬ (∀ env db userId out,
       fault env = None → user_journey_log env db userId = journeyLog out →
       tiesByReverseInsertionOrder (journeyEventsOf db userId) out).
Proof.
  assert (H : user_journey_log sampleEnv tiedDb "idle" =
    journeyLog
      [("c", mkJourneyEvent "europa" "Europa Probe" started (toISOString 50));
       ("b", mkJourneyEvent "mars" "Mars Survey" started (toISOString 50));
       ("a", mkJourneyEvent "mars" "Mars Survey" canceled (toISOString 50))])
    by (vm_compute; reflexivity).
  assert (Hdocs : journeyEventsOf tiedDb "idle" = tiedEvents) by reflexivity.
  split; [exact H|]. split.
  - intros Hall.
    specialize (Hall sampleEnv tiedDb "idle" _ eq_refl H).
    rewrite Hdocs in Hall.
    destruct (Hall 0%nat 1%nat _ _ eq_refl eq_refl ltac:(lia) eq_refl)
      as (i & j & x & y & Hi & Hj & Hlt).
    destruct i as [|[|[|i]]]; simplify_eq/=.
    destruct j as [|[|[|j]]]; simplify_eq/=; lia.
  - intros Hall.
    specialize (Hall sampleEnv tiedDb "idle" _ eq_refl H).
    rewrite Hdocs in Hall.
    destruct (Hall 1%nat 2%nat _ _ eq_refl eq_refl ltac:(lia) eq_refl)
      as (i & j & x & y & Hi & Hj & Hlt).
    destruct i as [|[|[|i]]]; simplify_eq/=.
    destruct j as [|[|[|j]]]; simplify_eq/=; lia.
Qed.

(** * Further properties of the handlers *)

(** ** Case analysis of a call *)

Lemma missions_start_cases env db userId body_missionId :
  (∃ e, missions_start env db userId body_missionId = (db, start_catch e)) ∨
  (∃ reqMissionId userData missionData available required,
      body_missionId = Some reqMissionId ∧ reqMissionId ≠ "" ∧
      fault env = None ∧
      users db !! userId = Some userData ∧
      activeMission userData = None ∧
      missions db !! reqMissionId = Some missionData ∧
      shipStatus userData ≫= crewCurrent = Some available ∧
      crew missionData = Some required ∧
      required ≤ available ∧
      missions_start env db userId body_missionId =
      (startedDb env db userId reqMissionId userData missionData,
       mkResponse 200 "Mission started successfully"
         (Some (mkActiveMission reqMissionId (name missionData)
                  (toISOString (now env)) (m_durationSeconds missionData))))).
Proof.
  destruct body_missionId as [reqMissionId|];
    [|left; by exists MissionIdRequired].
  destruct (decide (reqMissionId = "")) as [->|Hid];
    [left; by exists MissionIdRequired|].
  destruct (fault env) as [e|] eqn:Hf;
    [left; exists e; by apply start_faulted|].
  destruct (users db !! userId) as [userData|] eqn:Hu.
  2:{ left. exists UserNotFoundInFirestore.
      apply (start_fails _ _ _ _ _ Hid Hf). unfold start_body. by rewrite Hu. }
  destruct (missions db !! reqMissionId) as [missionData|] eqn:Hm.
  2:{ left. exists MissionNotFound.
      apply (start_fails _ _ _ _ _ Hid Hf). unfold start_body. by rewrite Hu, Hm. }
  destruct (activeMission userData) as [am|] eqn:Ha.
  { left. exists AlreadyActive.
    apply (start_fails _ _ _ _ _ Hid Hf).
    eapply start_body_active; [exact Hu | exact Hm | by rewrite Ha]. }
  pose proof (start_body_idle userId reqMissionId (newId env) db userData missionData
                [] Hu Hm Ha) as Hb.
  rewrite eligibility_cases in Hb.
  destruct (shipStatus userData ≫= crewCurrent) as [available|] eqn:Hc;
    [|left; exists IncompleteShipData; by apply start_fails].
  destruct (crew missionData) as [required|] eqn:Hr;
    [|left; exists IncompleteMissionData; by apply start_fails].
  destruct (available <? required) eqn:Hlt;
    [left; exists (InsufficientCrew required available); by apply start_fails|].
  apply Z.ltb_ge in Hlt.
  right. exists reqMissionId, userData, missionData, available, required.
  repeat split; try done.
  by eapply start_succeeds.
Qed.

Lemma missions_cancel_cases env db userId :
  (∃ e, missions_cancel env db userId = (db, cancel_catch e)) ∨
  (∃ userData am,
      fault env = None ∧
      users db !! userId = Some userData ∧
      activeMission userData = Some am ∧
      missions_cancel env db userId =
      (endedDb env db userId userData
         (mkJourneyEvent (missionId am) (missionName am) canceled (now env)),
       json 200 ("Mission " +:+ dquote +:+ missionName am +:+ dquote +:+
                 " canceled successfully."))).
Proof.
  destruct (fault env) as [e|] eqn:Hf;
    [left; exists e; by apply cancel_faulted|].
  destruct (users db !! userId) as [userData|] eqn:Hu.
  2:{ left. exists UserNotFound.
      apply (cancel_fails _ _ _ _ Hf). unfold cancel_body. by rewrite Hu. }
  destruct (activeMission userData) as [am|] eqn:Ha.
  - right. exists userData, am. repeat split; try done. by eapply cancel_succeeds.
  - left. exists NoActiveMissionToCancel.
    apply (cancel_fails _ _ _ _ Hf). by eapply cancel_body_idle.
Qed.

Lemma missions_complete_cases env db userId body_missionId body_missionName :
  (∃ e, missions_complete env db userId body_missionId body_missionName =
        (db, complete_catch e)) ∨
  (∃ reqMissionId reqMissionName userData am,
      body_missionId = Some reqMissionId ∧ reqMissionId ≠ "" ∧
      body_missionName = Some reqMissionName ∧ reqMissionName ≠ "" ∧
      fault env = None ∧
      users db !! userId = Some userData ∧
      activeMission userData = Some am ∧
      missionId am = reqMissionId ∧
      missions_complete env db userId body_missionId body_missionName =
      (endedDb env db userId userData
         (mkJourneyEvent reqMissionId reqMissionName completed (now env)),
       json 200 ("Mission " +:+ dquote +:+ reqMissionName +:+ dquote +:+
                 " completed successfully."))).
Proof.
  destruct body_missionId as [reqMissionId|];
    [|left; exists MissingParameters; by destruct body_missionName].
  destruct body_missionName as [reqMissionName|];
    [|left; by exists MissingParameters].
  destruct (decide (reqMissionId = "")) as [->|Hid];
    [left; by exists MissingParameters|].
  destruct (decide (reqMissionName = "")) as [->|Hname].
  { left. exists MissingParameters.
    unfold missions_complete. by rewrite (falsy_Some _ Hid). }
  destruct (fault env) as [e|] eqn:Hf;
    [left; exists e; by apply complete_faulted|].
  destruct (users db !! userId) as [userData|] eqn:Hu.
  2:{ left. exists UserNotFound.
      apply (complete_fails _ _ _ _ _ _ Hid Hname Hf).
      unfold complete_body. by rewrite Hu. }
  destruct (activeMission userData) as [am|] eqn:Ha.
  2:{ left. exists NoActiveMissionToComplete.
      apply (complete_fails _ _ _ _ _ _ Hid Hname Hf). by eapply complete_body_idle. }
  destruct (decide (missionId am = reqMissionId)) as [He|Hne].
  - right. exists reqMissionId, reqMissionName, userData, am.
    repeat split; try done. by eapply complete_succeeds.
  - left. exists MissionMismatch.
    apply (complete_fails _ _ _ _ _ _ Hid Hname Hf).
    by eapply complete_body_mismatch.
Qed.

(** Every call either fails and returns the database it was given, or
    commits one change of the active-mission slot together with one new
    journey event. *)
Lemma handle_cases env db userId call :
  ((handle env db userId call).1 = db ∧
   statusCode (handle env db userId call).2 ≠ 200) ∨
  (∃ userData slot ev,
      fault env = None ∧
      users db !! userId = Some userData ∧
      statusCode (handle env db userId call).2 = 200 ∧
      (handle env db userId call).1 =
        mkDb (<[userId := mkUserData slot (shipStatus userData)]> (users db))
             (missions db)
             (<[userId := journeyEventsOf db userId ++ [(newId env, ev)]]>
                (journeyEvents db)) ∧
      eventDate ev = now env ∧
      match activeMission userData, slot with
      | None, Some am =>
          status ev = started ∧ ev_missionId ev = missionId am ∧
          ev_missionName ev = missionName am ∧ startDate am = now env
      | Some am, None => status ev ≠ started ∧ ev_missionId ev = missionId am
      | _, _ => False
      end).
Proof.
  destruct call as [body_missionId| |body_missionId body_missionName]; simpl.
  - destruct (missions_start_cases env db userId body_missionId)
      as [[e ->] | (mid & u & md & c & r & _ & _ & Hf & Hu & Ha & _ & _ & _ & _ & ->)].
    + left. split; [done | apply start_catch_status].
    + right. eexists u, _, _. rewrite Ha.
      split; [exact Hf|]. split; [exact Hu|]. split; [done|].
      split; [reflexivity|]. done.
  - destruct (missions_cancel_cases env db userId)
      as [[e ->] | (u & am & Hf & Hu & Ha & ->)].
    + left. split; [done | apply cancel_catch_status].
    + right. eexists u, _, _. rewrite Ha.
      split; [exact Hf|]. split; [exact Hu|]. split; [done|].
      split; [reflexivity|]. done.
  - destruct (missions_complete_cases env db userId body_missionId body_missionName)
      as [[e ->] | (mid & nm & u & am & _ & _ & _ & _ & Hf & Hu & Ha & He & ->)].
    + left. split; [done | apply complete_catch_status].
    + right. eexists u, _, _. rewrite Ha.
      split; [exact Hf|]. split; [exact Hu|]. split; [done|].
      split; [reflexivity|]. done.
Qed.

(** ** When a transition succeeds *)

(** X1.  Start answers 200 exactly when the request names a mission, the
    store does not fail, the profile exists and has no active mission,
    the mission exists, and both crew counts are there with the crew at
    least the required one. *)
Theorem start_succeeds_exactly_when env db userId body_missionId :
  statusCode (missions_start env db userId body_missionId).2 = 200 ↔
  ∃ reqMissionId userData missionData available required,
    body_missionId = Some reqMissionId ∧ reqMissionId ≠ "" ∧
    fault env = None ∧
    users db !! userId = Some userData ∧
    activeMission userData = None ∧
    missions db !! reqMissionId = Some missionData ∧
    shipStatus userData ≫= crewCurrent = Some available ∧
    crew missionData = Some required ∧
    required ≤ available.
Proof.
  split.
  - intros Hs.
    destruct (missions_start_cases env db userId body_missionId)
      as [[e He] | (mid & u & md & c & r & H1 & H2 & H3 & H4 & H5 & H6 & H7 & H8 & H9 & _)].
    + rewrite He in Hs. by destruct (start_catch_status e).
    + by exists mid, u, md, c, r.
  - intros (mid & u & md & c & r & -> & Hid & Hf & Hu & Ha & Hm & Hc & Hr & Hle).
    by rewrite (start_succeeds _ _ _ _ _ _ _ _ Hu Hm Ha Hc Hr Hle Hid Hf).
Qed.

(** X2.  Cancel answers 200 exactly when the store does not fail and the
    profile exists with an active mission; the confirmation then names
    the stored mission. *)
Theorem cancel_succeeds_exactly_when env db userId :
  (statusCode (missions_cancel env db userId).2 = 200 ↔
   fault env = None ∧
   ∃ userData, users db !! userId = Some userData ∧ is_Some (activeMission userData)) ∧
  (statusCode (missions_cancel env db userId).2 = 200 →
   ∃ userData am,
     users db !! userId = Some userData ∧ activeMission userData = Some am ∧
     message (missions_cancel env db userId).2 =
     "Mission " +:+ dquote +:+ missionName am +:+ dquote +:+ " canceled successfully.").
Proof.
  destruct (missions_cancel_cases env db userId)
    as [[e He] | (u & am & Hf & Hu & Ha & He)]; rewrite He; simpl.
  - split; [split|]; intros H; try by destruct (cancel_catch_status e).
    destruct H as (Hf & u & Hu & [am Ha]).
    assert (Hs : statusCode (missions_cancel env db userId).2 = 200)
      by (by rewrite (cancel_succeeds _ _ _ _ _ Hu Ha Hf)).
    rewrite He in Hs. by destruct (cancel_catch_status e).
  - split; [split|]; intros _; eauto 10.
Qed.

(** X3.  Complete answers 200 exactly when both parameters are supplied,
    the store does not fail, and the profile exists with an active
    mission whose id is the supplied one. *)
Theorem complete_succeeds_exactly_when env db userId body_missionId body_missionName :
  statusCode (missions_complete env db userId body_missionId body_missionName).2 = 200 ↔
  ∃ reqMissionId reqMissionName userData am,
    body_missionId = Some reqMissionId ∧ reqMissionId ≠ "" ∧
    body_missionName = Some reqMissionName ∧ reqMissionName ≠ "" ∧
    fault env = None ∧
    users db !! userId = Some userData ∧
    activeMission userData = Some am ∧
    missionId am = reqMissionId.
Proof.
  split.
  - intros Hs.
    destruct (missions_complete_cases env db userId body_missionId body_missionName)
      as [[e He] | (mid & nm & u & am & H1 & H2 & H3 & H4 & H5 & H6 & H7 & H8 & _)].
    + rewrite He in Hs. by destruct (complete_catch_status e).
    + by exists mid, nm, u, am.
  - intros (mid & nm & u & am & -> & Hid & -> & Hname & Hf & Hu & Ha & He).
    by rewrite (complete_succeeds _ _ _ _ _ _ _ Hu Ha He Hid Hname Hf).
Qed.

(** ** What a call changes *)

Lemma journeyEventsOf_insert db usersMap missionsMap userId docs other :
  journeyEventsOf (mkDb usersMap missionsMap (<[userId := docs]> (journeyEvents db)))
                  other =
  if decide (userId = other) then docs else journeyEventsOf db other.
Proof.
  unfold journeyEventsOf. simpl. rewrite lookup_insert. by case_decide.
Qed.


(** X5.  A call leaves alone everything but the caller's active-mission
    slot and journey log: the catalogue, which profiles exist, the ship
    status of every profile, and the profile and journey log of every
    other user. *)
Theorem call_frame env db userId call :
  let db' := (handle env db userId call).1 in
  missions db' = missions db ∧
  (∀ other, shipStatus <$> users db' !! other = shipStatus <$> users db !! other) ∧
  (∀ other, other ≠ userId →
     users db' !! other = users db !! other ∧
     journeyEventsOf db' other = journeyEventsOf db other).
Proof.
  simpl.
  destruct (handle_cases env db userId call)
    as [[Hdb Hs] | (u & slot & ev & _ & Hu & Hs & Hdb & Hev & Hslot)];
    rewrite Hdb; [done|].
  simpl. split; [done|]. split.
  - intros other. destruct (decide (userId = other)) as [<-|Hne].
    + by rewrite lookup_insert_eq, Hu.
    + by rewrite lookup_insert_ne.
  - intros other Hne. split.
    + by rewrite lookup_insert_ne.
    + rewrite journeyEventsOf_insert. by rewrite decide_False.
Qed.

(** ** The journey log as an audit trail *)

Lemma replay_snoc docs doc : replay (docs ++ [doc]) = replayStep (replay docs) doc.2.
Proof. unfold replay. by rewrite foldl_snoc. Qed.

Lemma auditTrail_handle env db userId call :
  auditTrail db → auditTrail (handle env db userId call).1.
Proof.
  intros Hinv.
  destruct (handle_cases env db userId call)
    as [[Hdb Hs] | (u & slot & ev & _ & Hu & Hs & Hdb & Hev & Hslot)];
    rewrite Hdb; [done|].
  intros other u' Hlook. simpl in Hlook.
  rewrite journeyEventsOf_insert.
  destruct (decide (userId = other)) as [<-|Hne].
  - rewrite lookup_insert_eq in Hlook. simplify_eq. simpl.
    rewrite replay_snoc, (Hinv _ _ Hu). simpl.
    destruct (activeMission u) as [am|], slot as [am'|]; try done; simpl.
    + destruct Hslot as [Hst Hid]. rewrite Hid, bool_decide_true by done.
      by destruct (status ev).
    + destruct Hslot as (-> & -> & _). done.
  - rewrite lookup_insert_ne in Hlook by done. by apply Hinv.
Qed.

(** X6.  Whatever requests are handled, for whatever users and with
    whatever parameters and store failures, the journey log stays an
    audit trail of the profile: replayed from the idle state, every
    [started] event opens a mission when none is open, every [canceled]
    or [completed] event closes the open mission and carries its id, and
    the mission left open at the end is the profile's active mission. *)
Theorem journey_log_is_audit_trail requests db :
  auditTrail db → auditTrail (handleAll requests db).
Proof.
  revert db. induction requests as [|[[env userId] call] rest IH]; intros db Hinv.
  - exact Hinv.
  - simpl. apply IH. by apply auditTrail_handle.
Qed.

Lemma journey_log_is_audit_trail_witness :
  auditTrail
    (handleAll [(sampleEnv, "idle", callStart (Some "mars"));
                (mkEnv 101 "ev3" None, "busy", callComplete (Some "mars") (Some "Done"));
                (mkEnv 102 "ev4" None, "idle", callCancel);
                (mkEnv 103 "ev5" None, "idle", callCancel)] sampleDb).
Proof.
  apply (journey_log_is_audit_trail _ sampleDb).
  apply (bool_decide_unpack _). vm_compute. exact I.
Defined.

(** ** Round trips *)

Lemma idle_profile userData :
  activeMission userData = None → mkUserData None (shipStatus userData) = userData.
Proof. destruct userData as [slot ship]. simpl. by intros ->. Qed.

(** X7.  Start followed by cancel is a round trip on the profiles: after
    a committed start, a cancel that the store does not fail succeeds,
    names the mission by its catalogue name, and restores the [users]
    collection to what it was before the start; the journey log has
    grown by the [started] and the [canceled] event of that mission. *)
Theorem start_then_cancel env1 env2 db userId body_missionId db1 response1 :
  missions_start env1 db userId body_missionId = (db1, response1) →
  statusCode response1 = 200 →
  fault env2 = None →
  ∃ reqMissionId missionData db2,
    body_missionId = Some reqMissionId ∧
    missions db !! reqMissionId = Some missionData ∧
    missions_cancel env2 db1 userId =
      (db2, json 200 ("Mission " +:+ dquote +:+ name missionData +:+ dquote +:+
                      " canceled successfully.")) ∧
    users db2 = users db ∧
    missions db2 = missions db ∧
    journeyEventsOf db2 userId =
      journeyEventsOf db userId ++
      [(newId env1, mkJourneyEvent reqMissionId (name missionData) started (now env1));
       (newId env2, mkJourneyEvent reqMissionId (name missionData) canceled (now env2))].
Proof.
  intros Hstart Hs Hf2.
  destruct (missions_start_cases env1 db userId body_missionId)
    as [[e He] | (mid & u & md & c & r & -> & _ & _ & Hu & Ha & Hm & _ & _ & _ & He)];
    rewrite He in Hstart; simplify_eq.
  { by destruct (start_catch_status e). }
  exists mid, md. eexists.
  split; [done|]. split; [done|].
  split.
  { exact (cancel_succeeds env2 (startedDb env1 db userId mid u md) userId _
             (mkActiveMission mid (name md) (now env1) (m_durationSeconds md))
             (lookup_insert_eq _ _ _) eq_refl Hf2). }
  split; [|split].
  - simpl. rewrite insert_insert_eq. apply insert_id.
    by rewrite (idle_profile _ Ha).
  - done.
  - rewrite journeyEventsOf_endedDb, journeyEventsOf_startedDb.
    by rewrite <- app_assoc.
Qed.

Lemma start_then_cancel_witness :
  ∃ reqMissionId missionData db2,
    Some "mars" = Some reqMissionId ∧
    missions sampleDb !! reqMissionId = Some missionData ∧
    missions_cancel (mkEnv 101 "ev3" None)
      (missions_start sampleEnv sampleDb "idle" (Some "mars")).1 "idle" =
      (db2, json 200 ("Mission " +:+ dquote +:+ name missionData +:+ dquote +:+
                      " canceled successfully.")) ∧
    users db2 = users sampleDb ∧
    missions db2 = missions sampleDb ∧
    journeyEventsOf db2 "idle" =
      journeyEventsOf sampleDb "idle" ++
      [("ev2", mkJourneyEvent reqMissionId (name missionData) started 100);
       ("ev3", mkJourneyEvent reqMissionId (name missionData) canceled 101)].
Proof.
  apply (start_then_cancel sampleEnv (mkEnv 101 "ev3" None) sampleDb "idle" (Some "mars")
           (missions_start sampleEnv sampleDb "idle" (Some "mars")).1
           (missions_start sampleEnv sampleDb "idle" (Some "mars")).2);
    [vm_compute; reflexivity | vm_compute; reflexivity | reflexivity].
Defined.

(** X8.  Start followed by complete: after a committed start, a complete
    call with the id of the started mission and any non-empty name
    succeeds and restores the [users] collection to what it was before
    the start; the journey log has grown by the [started] event, with the
    catalogue name, and the [completed] event, with the supplied name. *)
Theorem start_then_complete env1 env2 db userId reqMissionId reqMissionName db1 response1 :
  missions_start env1 db userId (Some reqMissionId) = (db1, response1) →
  statusCode response1 = 200 →
  reqMissionName ≠ "" →
  fault env2 = None →
  ∃ missionData db2,
    missions db !! reqMissionId = Some missionData ∧
    missions_complete env2 db1 userId (Some reqMissionId) (Some reqMissionName) =
      (db2, json 200 ("Mission " +:+ dquote +:+ reqMissionName +:+ dquote +:+
                      " completed successfully.")) ∧
    users db2 = users db ∧
    missions db2 = missions db ∧
    journeyEventsOf db2 userId =
      journeyEventsOf db userId ++
      [(newId env1, mkJourneyEvent reqMissionId (name missionData) started (now env1));
       (newId env2, mkJourneyEvent reqMissionId reqMissionName completed (now env2))].
Proof.
  intros Hstart Hs Hname Hf2.
  destruct (missions_start_cases env1 db userId (Some reqMissionId))
    as [[e He] | (mid & u & md & c & r & Hmid & Hid & _ & Hu & Ha & Hm & _ & _ & _ & He)];
    rewrite He in Hstart; simplify_eq.
  { by destruct (start_catch_status e). }
  exists md. eexists.
  split; [done|].
  split.
  { eapply complete_succeeds;
      [simpl; apply lookup_insert_eq | reflexivity | reflexivity | done | done | done]. }
  split; [|split].
  - simpl. rewrite insert_insert_eq. apply insert_id.
    by rewrite (idle_profile _ Ha).
  - done.
  - rewrite journeyEventsOf_endedDb, journeyEventsOf_startedDb.
    by rewrite <- app_assoc.
Qed.

Lemma start_then_complete_witness :
  ∃ missionData db2,
    missions sampleDb !! "mars" = Some missionData ∧
    missions_complete (mkEnv 101 "ev3" None)
      (missions_start sampleEnv sampleDb "idle" (Some "mars")).1 "idle"
      (Some "mars") (Some "Red Planet") =
      (db2, json 200 ("Mission " +:+ dquote +:+ "Red Planet" +:+ dquote +:+
                      " completed successfully.")) ∧
    users db2 = users sampleDb ∧
    missions db2 = missions sampleDb ∧
    journeyEventsOf db2 "idle" =
      journeyEventsOf sampleDb "idle" ++
      [("ev2", mkJourneyEvent "mars" (name missionData) started 100);
       ("ev3", mkJourneyEvent "mars" "Red Planet" completed 101)].
Proof.
  apply (start_then_complete sampleEnv (mkEnv 101 "ev3" None) sampleDb "idle" "mars"
           "Red Planet"
           (missions_start sampleEnv sampleDb "idle" (Some "mars")).1
           (missions_start sampleEnv sampleDb "idle" (Some "mars")).2);
    [vm_compute; reflexivity | vm_compute; reflexivity | discriminate | reflexivity].
Defined.

(** ** Reading the journey log back *)

Lemma strictly_increasing_dates_unique (docs : list (string * JourneyEvent Z)) :
  StronglySorted (λ a b, eventDate a.2 < eventDate b.2) docs →
  ∀ x1 x2, x1 ∈ docs → x2 ∈ docs → eventDate x1.2 = eventDate x2.2 → x1 = x2.
Proof.
  induction 1 as [|x docs Hs IH Hall]; intros x1 x2 H1 H2 Heq.
  - by apply elem_of_nil in H1.
  - rewrite Forall_forall in Hall.
    apply elem_of_cons in H1 as [->|H1]; apply elem_of_cons in H2 as [->|H2].
    + done.
    + specialize (Hall _ H2). lia.
    + specialize (Hall _ H1). lia.
    + by apply IH.
Qed.

(** X9.  When the events of a user were stamped with strictly increasing
    times, in the order in which they were added, the journey-log read
    returns them in exactly the reverse of that order: last added
    first. *)
Theorem journey_log_reverse_insertion env db userId :
  fault env = None →
  StronglySorted (λ a b, eventDate a.2 < eventDate b.2) (journeyEventsOf db userId) →
  user_journey_log env db userId =
  journeyLog (isoEvent <$> reverse (journeyEventsOf db userId)).
Proof.
  intros Hf Hinc.
  assert (Hq : orderByEventDateDesc (journeyEventsOf db userId) =
               reverse (journeyEventsOf db userId)).
  { apply (StronglySorted_unique_strong eventDateDesc).
    - intros x1 x2 H1 H2 H12 H21.
      apply (strictly_increasing_dates_unique _ Hinc).
      + rewrite <- (merge_sort_Permutation eventDateDesc (journeyEventsOf db userId)).
        exact H1.
      + by apply elem_of_reverse.
      + apply eventDateDesc_dates in H12, H21. lia.
    - apply (StronglySorted_merge_sort eventDateDesc).
    - apply (Sorted_StronglySorted eventDateDesc).
      apply (Sorted_reverse (flip eventDateDesc)).
      apply StronglySorted_Sorted.
      eapply StronglySorted_weaken; [|exact Hinc].
      intros a b Hab. by left.
    - rewrite reverse_Permutation. apply (merge_sort_Permutation eventDateDesc). }
  unfold user_journey_log. rewrite Hf. simpl. rewrite Hq.
  case_bool_decide as Hempty; [by rewrite Hempty | done].
Qed.

Lemma journey_log_reverse_insertion_witness :
  user_journey_log (mkEnv 200 "ev9" None)
    (handleAll [(sampleEnv, "busy", callCancel);
                (mkEnv 101 "ev3" None, "busy", callStart (Some "europa"));
                (mkEnv 102 "ev1b" None, "busy", callComplete (Some "europa") (Some "Ice"))]
       (mkDb (<["busy" := mkUserData (Some (mkActiveMission "mars" "Mars Survey" 50 3600))
                            (Some (mkShipStatus (Some 4)))]> ∅)
             (<["mars" := marsSurvey]>
                (<["europa" := mkMissionData "Europa Probe" (Some 4) 7200]> ∅))
             (<["busy" := [("ev1", mkJourneyEvent "mars" "Mars Survey" started 50)]]> ∅)))
    "busy" =
  journeyLog
    [("ev1b", mkJourneyEvent "europa" "Ice" completed (toISOString 102));
     ("ev3", mkJourneyEvent "europa" "Europa Probe" started (toISOString 101));
     ("ev2", mkJourneyEvent "mars" "Mars Survey" canceled (toISOString 100));
     ("ev1", mkJourneyEvent "mars" "Mars Survey" started (toISOString 50))].
Proof.
  apply (journey_log_reverse_insertion (mkEnv 200 "ev9" None)).
  - reflexivity.
  - apply (bool_decide_unpack _). vm_compute. exact I.
Defined.

Lemma orderBy_newest (docs : list (string * JourneyEvent Z)) doc :
  (∀ d, d ∈ docs → eventDate d.2 < eventDate doc.2) →
  ∃ rest, orderByEventDateDesc (docs ++ [doc]) = doc :: rest ∧ rest ≡ₚ docs.
Proof.
  intros Hlater. unfold orderByEventDateDesc.
  pose proof (merge_sort_Permutation eventDateDesc (docs ++ [doc])) as Hperm.
  pose proof (StronglySorted_merge_sort eventDateDesc (docs ++ [doc])) as Hsort.
  destruct (merge_sort eventDateDesc (docs ++ [doc])) as [|h t].
  { apply Permutation_nil_l in Hperm. by destruct docs. }
  assert (Hh : h ∈ docs ++ [doc]) by (rewrite <- Hperm; apply list_elem_of_here).
  assert (Hd : doc ∈ h :: t) by (rewrite Hperm, elem_of_app, list_elem_of_singleton; by right).
  apply StronglySorted_inv in Hsort as [_ Hall]. rewrite Forall_forall in Hall.
  assert (h = doc) as ->.
  { apply elem_of_app in Hh as [Hh|Hh]; [|by apply list_elem_of_singleton in Hh].
    specialize (Hlater _ Hh).
    apply elem_of_cons in Hd as [->|Hd]; [lia|].
    apply Hall, eventDateDesc_dates in Hd. lia. }
  exists t. split; [done|].
  apply (Permutation_cons_inv (a:=doc)).
  rewrite Hperm. apply (Permutation_app_comm docs [doc]).
Qed.

Lemma handle_success_event env db userId call :
  statusCode (handle env db userId call).2 = 200 →
  ∃ ev,
    journeyEventsOf (handle env db userId call).1 userId =
      journeyEventsOf db userId ++ [(newId env, ev)] ∧
    eventDate ev = now env ∧
    status ev = match call with
                | callStart _ => started
                | callCancel => canceled
                | callComplete _ _ => completed
                end.
Proof.
  destruct call as [body_missionId| |body_missionId body_missionName]; simpl; intros Hs.
  - destruct (missions_start_cases env db userId body_missionId)
      as [[e He] | (mid & u & md & c & r & _ & _ & _ & _ & _ & _ & _ & _ & _ & He)];
      rewrite He in Hs |- *.
    + by destruct (start_catch_status e).
    + eexists. split; [apply journeyEventsOf_startedDb | done].
  - destruct (missions_cancel_cases env db userId)
      as [[e He] | (u & am & _ & _ & _ & He)]; rewrite He in Hs |- *.
    + by destruct (cancel_catch_status e).
    + eexists. split; [apply journeyEventsOf_endedDb | done].
  - destruct (missions_complete_cases env db userId body_missionId body_missionName)
      as [[e He] | (mid & nm & u & am & _ & _ & _ & _ & _ & _ & _ & _ & He)];
      rewrite He in Hs |- *.
    + by destruct (complete_catch_status e).
    + eexists. split; [apply journeyEventsOf_endedDb | done].
Qed.

(** X10.  After a transition committed at a time later than every event
    already in the user's journey log, the journey-log read lists the
    event of that transition first: [started] after start, [canceled]
    after cancel, [completed] after complete; the older events follow. *)
Theorem journey_log_newest_first env env' db userId call :
  statusCode (handle env db userId call).2 = 200 →
  fault env' = None →
  (∀ doc, doc ∈ journeyEventsOf db userId → eventDate doc.2 < now env) →
  ∃ ev rest,
    user_journey_log env' (handle env db userId call).1 userId =
      journeyLog (isoEvent (newId env, ev) :: (isoEvent <$> rest)) ∧
    eventDate ev = now env ∧
    status ev = match call with
                | callStart _ => started
                | callCancel => canceled
                | callComplete _ _ => completed
                end ∧
    rest ≡ₚ journeyEventsOf db userId.
Proof.
  intros Hs Hf Hlater.
  destruct (handle_success_event env db userId call Hs) as (ev & Hlog & Hdate & Hst).
  destruct (orderBy_newest (journeyEventsOf db userId) (newId env, ev))
    as (rest & Hq & Hperm).
  { intros d Hd. simpl. rewrite Hdate. by apply Hlater. }
  exists ev, rest. repeat split; try done.
  unfold user_journey_log. rewrite Hf. simpl. rewrite Hlog, Hq.
  by rewrite bool_decide_false.
Qed.

Lemma journey_log_newest_first_witness :
  ∃ ev rest,
    user_journey_log (mkEnv 200 "ev9" None)
      (handle sampleEnv sampleDb "busy" callCancel).1 "busy" =
      journeyLog (isoEvent ("ev2", ev) :: (isoEvent <$> rest)) ∧
    eventDate ev = 100 ∧
    status ev = canceled ∧
    rest ≡ₚ journeyEventsOf sampleDb "busy".
Proof.
  apply (journey_log_newest_first sampleEnv (mkEnv 200 "ev9" None) sampleDb "busy"
           callCancel).
  - vm_compute. reflexivity.
  - reflexivity.
  - apply Forall_forall. apply (bool_decide_unpack _). vm_compute. exact I.
Defined.

(** ** The catalogue and the status reads *)

#[global] Instance nameAsc_transitive : Transitive nameAsc.
Proof.
  intros a b c [[Nab Lab]|[Eab Lab]] [[Nbc Lbc]|[Ebc Lbc]]; unfold nameAsc.
  - left. split; [|by transitivity (name b.2)].
    intros Eac. rewrite <- Eac in Lbc.
    apply Nab. by apply (anti_symm String.le).
  - left. rewrite <- Ebc. by split.
  - left. rewrite Eab. by split.
  - right. split; [congruence|]. by transitivity b.1.
Qed.

#[global] Instance nameAsc_total : Total nameAsc.
Proof.
  intros a b. unfold nameAsc.
  destruct (decide (name a.2 = name b.2)) as [Heq|Hne].
  - destruct (total String.le a.1 b.1); [left|right]; right; by split.
  - destruct (total String.le (name a.2) (name b.2)); [left|right]; left; by split.
Qed.

(** X11.  The missions route answers 404 "No missions found" exactly when
    the catalogue is empty.  Otherwise it answers with every mission of
    the catalogue, each once under its document id, ordered by name
    (missions of the same name by id). *)
Theorem get_missions_lists_catalogue env db :
  fault env = None →
  (missions db = ∅ ↔ get_missions env db = readError 404 "No missions found" None) ∧
  (missions db ≠ ∅ →
   ∃ listed,
     get_missions env db = readOk listed ∧
     StronglySorted nameAsc listed ∧
     NoDup listed.*1 ∧
     ∀ id missionData, (id, missionData) ∈ listed ↔ missions db !! id = Some missionData).
Proof.
  intros Hf. unfold get_missions. rewrite Hf. simpl.
  pose proof (merge_sort_Permutation nameAsc (map_to_list (missions db))) as Hperm.
  assert (Hempty : merge_sort nameAsc (map_to_list (missions db)) = [] ↔ missions db = ∅).
  { rewrite <- map_to_list_empty_iff. split; intros H.
    - rewrite H in Hperm. symmetry. by apply Permutation_nil_l.
    - by rewrite H. }
  split.
  - case_bool_decide as Hnil; split; try done.
    + intros _. by apply Hempty.
    + intros H. by apply Hempty in H.
  - intros Hne. rewrite bool_decide_false by (by rewrite Hempty).
    eexists. split; [reflexivity|]. split; [|split].
    + apply (StronglySorted_merge_sort nameAsc).
    + rewrite Hperm. apply NoDup_fst_map_to_list.
    + intros id missionData. rewrite Hperm. apply elem_of_map_to_list.
Qed.

Lemma get_missions_lists_catalogue_witness :
  (missions sampleDb = ∅ ↔
   get_missions sampleEnv sampleDb = readError 404 "No missions found" None) ∧
  (missions sampleDb ≠ ∅ →
   ∃ listed,
     get_missions sampleEnv sampleDb = readOk listed ∧
     StronglySorted nameAsc listed ∧
     NoDup listed.*1 ∧
     ∀ id missionData,
       (id, missionData) ∈ listed ↔ missions sampleDb !! id = Some missionData).
Proof. apply (get_missions_lists_catalogue sampleEnv sampleDb). reflexivity. Defined.

(** X12.  The status route agrees with the transitions: read after a
    committed start it shows the very [activeMission] the start response
    carried; read after a committed cancel or complete it shows none; in
    both cases the ship status is the one from before the call. *)
Theorem status_after_call env env' db userId call :
  statusCode (handle env db userId call).2 = 200 →
  fault env' = None →
  ∃ userData shown,
    users db !! userId = Some userData ∧
    user_status env' (handle env db userId call).1 userId =
      readOk (mkUserStatus shown (shipStatus userData)) ∧
    match call with
    | callStart _ =>
        is_Some shown ∧ shown = res_activeMission (handle env db userId call).2
    | _ => shown = None
    end.
Proof.
  intros Hs Hf. unfold user_status. rewrite Hf.
  destruct call as [body_missionId| |body_missionId body_missionName]; simpl in *.
  - destruct (missions_start_cases env db userId body_missionId)
      as [[e He] | (mid & u & md & c & r & _ & _ & _ & Hu & _ & _ & _ & _ & _ & He)];
      rewrite He in Hs |- *; [by destruct (start_catch_status e)|].
    simpl. rewrite lookup_insert_eq. eexists u, _. by repeat split.
  - destruct (missions_cancel_cases env db userId)
      as [[e He] | (u & am & _ & Hu & _ & He)];
      rewrite He in Hs |- *; [by destruct (cancel_catch_status e)|].
    simpl. rewrite lookup_insert_eq. eexists u, _. by repeat split.
  - destruct (missions_complete_cases env db userId body_missionId body_missionName)
      as [[e He] | (mid & nm & u & am & _ & _ & _ & _ & _ & Hu & _ & _ & He)];
      rewrite He in Hs |- *; [by destruct (complete_catch_status e)|].
    simpl. rewrite lookup_insert_eq. eexists u, _. by repeat split.
Qed.

Lemma status_after_call_witness :
  ∃ userData shown,
    users sampleDb !! "idle" = Some userData ∧
    user_status (mkEnv 200 "ev9" None)
      (handle sampleEnv sampleDb "idle" (callStart (Some "mars"))).1 "idle" =
      readOk (mkUserStatus shown (shipStatus userData)) ∧
    (is_Some shown ∧
     shown = res_activeMission
               (handle sampleEnv sampleDb "idle" (callStart (Some "mars"))).2).
Proof.
  apply (status_after_call sampleEnv (mkEnv 200 "ev9" None) sampleDb "idle"
           (callStart (Some "mars")));
    [vm_compute; reflexivity | reflexivity].
Defined.

(** ** Authentication *)

Lemma string_app_empty_r (s : string) : s +:+ "" = s.
Proof.
  induction s as [|a s IH]; [done|].
  change (String a (s +:+ "") = String a s). by rewrite IH.
Qed.

Lemma rev_app_app (a b s : string) :
  String.rev_app a b +:+ s = String.rev_app a (b +:+ s).
Proof. revert b. induction a as [|c a IH]; intros b; simpl; [done | by rewrite IH]. Qed.

Lemma split_go_here sep cur c s :
  split_go sep 0 cur (String c s) =
  if String.prefix sep (String c s)
  then String.rev cur :: split_go sep (String.length sep - 1) "" s
  else split_go sep 0 (String c cur) s.
Proof. reflexivity. Qed.

(** Where the separator does not occur, nothing is split off. *)
Lemma split_go_no_separator sep cur s :
  includes sep s = false → split_go sep 0 cur s = [String.rev cur +:+ s].
Proof.
  revert cur. induction s as [|c s IH]; intros cur Hno.
  - simpl. by rewrite string_app_empty_r.
  - rewrite includes_unfold in Hno.
    destruct (String.prefix sep (String c s)) eqn:Hp; [done|].
    rewrite split_go_here, Hp, (IH _ Hno).
    unfold String.rev. simpl. by rewrite !rev_app_app.
Qed.

Lemma split_go_skip sep p cur s :
  split_go sep (String.length p) cur (p +:+ s) = split_go sep 0 cur s.
Proof. induction p as [|a p IH]; simpl; [by destruct s | exact IH]. Qed.

Lemma split_after_separator a sep s :
  includes (String a sep) s = false →
  split (String a sep) (String a sep +:+ s) = [""; s].
Proof.
  intros Hno. unfold split.
  change (String a sep +:+ s) with (String a (sep +:+ s)).
  rewrite split_go_here.
  change (String a (sep +:+ s)) with (String a sep +:+ s).
  rewrite prefix_app.
  change (String.length (String a sep) - 1)%nat with (String.length sep - 0)%nat.
  rewrite Nat.sub_0_r, split_go_skip, (split_go_no_separator _ _ _ Hno).
  done.
Qed.

(** X13.  For a header "Bearer <token>" whose token does not itself
    contain "Bearer ", the middleware verifies exactly that token: the
    request goes on as the decoded user, is answered 401 "Unauthorized:
    Token expired" when verification fails with [auth/id-token-expired],
    and 403 "Forbidden: Invalid token" for every other failure. *)
Theorem verifyToken_bearer verifyIdToken token :
  includes "Bearer " token = false →
  verifyToken verifyIdToken (Some ("Bearer " +:+ token)) =
  match verifyIdToken token with
  | decodedToken uid => inr uid
  | rejectedToken code =>
      if bool_decide (code = "auth/id-token-expired")
      then inl (json 401 "Unauthorized: Token expired")
      else inl (json 403 "Forbidden: Invalid token")
  end.
Proof.
  intros Hno. unfold verifyToken.
  rewrite prefix_app, (split_after_separator _ _ _ Hno).
  rewrite falsy_Some by done. reflexivity.
Qed.

Lemma verifyToken_bearer_witness :
  verifyToken (λ token, if bool_decide (token = "t0k3n") then decodedToken "idle"
                        else rejectedToken "auth/argument-error")
              (Some "Bearer t0k3n") = inr "idle".
Proof.
  exact (verifyToken_bearer
           (λ token, if bool_decide (token = "t0k3n") then decodedToken "idle"
                     else rejectedToken "auth/argument-error") "t0k3n" eq_refl).
Defined.

(** X14.  A request to a protected mission route either is turned away
    by the middleware, with status 401 or 403 and the database untouched,
    or carries a header starting with "Bearer " from which a token was
    verified, and is then handled for the user that token decodes to and
    for no other. *)
Theorem protected_outcome verifyIdToken authorization env db call :
  ((protected verifyIdToken authorization env db call).1 = db ∧
   (statusCode (protected verifyIdToken authorization env db call).2 = 401 ∨
    statusCode (protected verifyIdToken authorization env db call).2 = 403)) ∨
  (∃ authHeader idToken uid,
      authorization = Some authHeader ∧
      String.prefix "Bearer " authHeader = true ∧
      verifyIdToken idToken = decodedToken uid ∧
      protected verifyIdToken authorization env db call = handle env db uid call).
Proof.
  unfold protected, verifyToken.
  destruct authorization as [authHeader|]; [|left; simpl; auto].
  destruct (falsy (Some authHeader) || negb (String.prefix "Bearer " authHeader))
    eqn:Hguard; [left; simpl; auto|].
  apply orb_false_iff in Hguard as [_ Hprefix]. apply negb_false_iff in Hprefix.
  destruct (split "Bearer " authHeader !! 1%nat) as [idToken|]; [|left; simpl; auto].
  destruct (verifyIdToken idToken) as [uid|code] eqn:Hv.
  - right. by exists authHeader, idToken, uid.
  - left. case_bool_decide; simpl; auto.
Qed.

(** ** Classification of errors *)

Lemma includes_anywhere (sub pre post : string) :
  includes sub (pre +:+ sub +:+ post) = true.
Proof.
  induction pre as [|a pre IH].
  - change ("" +:+ sub +:+ post) with (sub +:+ post). apply includes_prefix.
  - change (String a pre +:+ sub +:+ post) with (String a (pre +:+ sub +:+ post)).
    rewrite includes_unfold.
    destruct (String.prefix sub (String a (pre +:+ sub +:+ post))); [done | exact IH].
Qed.

(** X15.  Any error whose message contains "not found", wherever in the
    message and whoever raised it, is answered by start, cancel and
    complete with status 400 and that message. *)
Theorem not_found_is_client_error (pre post : string) :
  let error := pre +:+ "not found" +:+ post in
  start_catch error = json 400 error ∧
  cancel_catch error = json 400 error ∧
  complete_catch error = json 400 error.
Proof.
  simpl.
  assert (Hne : pre +:+ "not found" +:+ post ≠ "") by (by destruct pre).
  unfold start_catch, cancel_catch, complete_catch,
    start_isClientError, cancel_isClientError, complete_isClientError.
  rewrite !(orElse_nonempty _ _ Hne), !includes_anywhere, !orb_true_r.
  done.
Qed.
